(** * eodatasets3.images: measurement grouping, valid-data geometry and
      thumbnail stretch

    A shallow embedding of [eodatasets3/images.py]: the [MeasurementBundler]
    registry ([record_image], [_expand_valid_data_mask], [_as_named_grids],
    [consume_and_get_valid_data]), the vectorising helper [_grid_to_poly] and
    the stretch computation [read_valid_mask_and_value_range]; and further
    [generate_tiles], [_find_a_common_name], [as_geo_docs], the single-band
    filters, [rescale_intensity] and the bands of [_write_to_numpy_array].

    Conventions.
    - A Python [dict] is an association list in insertion order: the order is
      observable here ([sorted] is stable, [popitem] removes the last entry).
    - A method that mutates [self] takes the registry and returns the registry
      it leaves behind together with its outcome, also when it raises.
    - A two-dimensional numpy array is a shape and an accessor.
    - Numbers that Python holds as floats are exact rationals ([Qc]) extended
      with the two infinities and NaN; rounding is not modelled.
    - What the module takes from odc.geo, shapely, rasterio, scipy and
      scikit-image is an interface ([OdcGeo], [Vector]); the theorems hold for
      every implementation of it. *)

From Stdlib Require Import List String Ascii ZArith QArith Qcanon Qcabs.
From Stdlib Require Import Bool Arith Lia DecimalString.
From Stdlib Require Import Permutation Sorted Qround Lqa.
Import ListNotations.

Open Scope string_scope.
Open Scope list_scope.

(** ** Outcomes *)

(** [_MeasurementLocation]: an attrs class with a path and an optional layer. *)
Record _MeasurementLocation := mk_location
  { path : string;
    layer : option string }.

(** The exceptions the module can raise, under the names the specification
    gives them. *)
Inductive error :=
| DuplicateMeasurementError (name : string)
    (original : _MeasurementLocation) (now : string)
    (* ValueError("Duplicate addition of band called ...") *)
| TooManyGridsError (letters : nat)
    (* NotImplementedError("More than ... grids that cannot be named!") *)
| IndexError      (* list.pop(0) on an empty list *)
| AttributeError  (* grid.crs.epsg when grid.crs is None *)
| ShapeError.     (* numpy: operands could not be broadcast together,
                     boolean index did not match *)

Inductive result (A : Type) :=
| Ok (a : A)
| Raise (e : error).
Arguments Ok {A} a.
Arguments Raise {A} e.

(** ** Python dictionaries and sorting *)

Section Dict.
Context {K V : Type} (eq_dec : forall x y : K, {x = y} + {x <> y}).

(** [d.get(k)] *)
Fixpoint dict_get (k : K) (d : list (K * V)) : option V :=
  match d with
  | [] => None
  | (k', v) :: rest => if eq_dec k k' then Some v else dict_get k rest
  end.

(** [k in d] *)
Definition dict_mem (k : K) (d : list (K * V)) : bool :=
  match dict_get k d with Some _ => true | None => false end.

(** [d[k] = v]: an existing key keeps its place, a new key goes last. *)
Fixpoint dict_set (k : K) (v : V) (d : list (K * V)) : list (K * V) :=
  match d with
  | [] => [(k, v)]
  | (k', v') :: rest =>
      if eq_dec k k' then (k', v) :: rest else (k', v') :: dict_set k v rest
  end.
End Dict.

(** [d.popitem()]: removes and returns the entry inserted last. *)
Definition popitem {K V : Type} (d : list (K * V))
  : option ((K * V) * list (K * V)) :=
  match rev d with
  | [] => None
  | kv :: before => Some (kv, rev before)
  end.

Section Sorting.
Context {A : Type} (key : A -> nat).

(** Place [x] in a list sorted from the largest key to the smallest, in
    front of the entries whose key is not larger than its own. *)
Fixpoint insert_desc (x : A) (l : list A) : list A :=
  match l with
  | [] => [x]
  | y :: rest =>
      if (key x <? key y)%nat then y :: insert_desc x rest else x :: y :: rest
  end.

(** [sorted(l, key=key, reverse=True)]: stable, so entries with equal keys
    keep the order they had in [l]. *)
Definition sorted_desc (l : list A) : list A :=
  fold_right insert_desc [] l.
End Sorting.

(** ** Strings *)

Definition str_rev (s : string) : string :=
  string_of_list_ascii (rev (list_ascii_of_string s)).

Definition startswith (s pre : string) : bool := String.prefix pre s.

Definition endswith (s suf : string) : bool :=
  String.prefix (str_rev suf) (str_rev s).

(** [min(m)] and [max(m)] on a non-empty list of strings, seeded with its
    head. *)
Definition str_min (seed : string) (m : list string) : string :=
  fold_left (fun acc s => if String.ltb s acc then s else acc) m seed.

Definition str_max (seed : string) (m : list string) : string :=
  fold_left (fun acc s => if String.ltb acc s then s else acc) m seed.

(** The loop of [os.path.commonprefix]: the part of [s1] before the first
    position where [s2] differs. *)
Fixpoint agree_prefix (s1 s2 : string) : string :=
  match s1, s2 with
  | String c1 r1, String c2 r2 =>
      if Ascii.eqb c1 c2 then String c1 (agree_prefix r1 r2) else ""
  | _, _ => ""
  end.

(** [os.path.commonprefix(m)] *)
Definition commonprefix (m : list string) : string :=
  match m with
  | [] => ""
  | s :: rest => agree_prefix (str_min s rest) (str_max s rest)
  end.

(** [s.lstrip(chars)], [s.strip(chars)] *)
Fixpoint lstrip (chars : list ascii) (s : string) : string :=
  match s with
  | "" => ""
  | String c rest =>
      if existsb (Ascii.eqb c) chars then lstrip chars rest else s
  end.

Definition strip (chars : list ascii) (s : string) : string :=
  str_rev (lstrip chars (str_rev (lstrip chars s))).

Definition str_in (s : string) (l : list string) : bool :=
  existsb (String.eqb s) l.

(** [str(n)] for an integer. *)
Definition str_of_Z (n : Z) : string :=
  NilEmpty.string_of_int (Z.to_int n).

(** ** Naming a group of bands *)

Definition _common_suffix (names : list string) : string :=
  str_rev (commonprefix (map str_rev names)).

(** [_find_a_common_name(group_of_names, all_possible_names)].  A set is a
    list here: it is only asked whether some member passes a test. *)
Definition _find_a_common_name
    (group_of_names : list string) (all_possible_names : option (list string))
  : option string :=
  let non_group_names :=
    filter (fun n => negb (str_in n group_of_names))
      (match all_possible_names with Some s => s | None => [] end) in
  let pre := commonprefix group_of_names in
  let options :=
    if existsb (fun name => startswith name pre) non_group_names
    then [] else [pre] in
  let suf := _common_suffix group_of_names in
  let options :=
    if existsb (fun name => endswith name suf) non_group_names
    then options else options ++ [suf] in
  match options with
  | [] => None
  | _ =>
      let options := map (strip ["_"; ":"]%char) options in
      match sorted_desc String.length options with
      | [] => None
      | "" :: _ => None
      | best :: _ => Some best
      end
  end.

(** ** Numbers and arrays *)

(** A pixel value or a nodata sentinel: a Python [int] or [float]. *)
Inductive pynum :=
| Num (q : Qc)
| PosInf
| NegInf
| NaN.

Definition Qc_of_Z (z : Z) : Qc := Q2Qc (inject_Z z).

Definition Int (z : Z) : pynum := Num (Qc_of_Z z).

(** [math.isnan], [numpy.isfinite] *)
Definition isnan (x : pynum) : bool :=
  match x with NaN => true | _ => false end.

Definition isfinite (x : pynum) : bool :=
  match x with Num _ => true | _ => false end.

(** [x == y] and [x < y] on numbers: every comparison with NaN is false. *)
Definition num_eqb (x y : pynum) : bool :=
  match x, y with
  | Num p, Num q => Qeq_bool p q
  | PosInf, PosInf => true
  | NegInf, NegInf => true
  | _, _ => false
  end.

Definition num_ltb (x y : pynum) : bool :=
  match x, y with
  | NaN, _ | _, NaN => false
  | Num p, Num q => negb (Qle_bool q p)
  | NegInf, NegInf => false
  | NegInf, _ => true
  | _, NegInf => false
  | PosInf, _ => false
  | _, PosInf => true
  end.

(** [x != y], as numpy computes it cell by cell. *)
Definition num_neqb (x y : pynum) : bool := negb (num_eqb x y).

(** A two-dimensional array: [arr_shape] is [(rows, columns)], [item a i j]
    is [a[i, j]] and is read only inside the shape. *)
Record ndarray (A : Type) := mk_ndarray
  { arr_shape : nat * nat;
    item : nat -> nat -> A }.
Arguments mk_ndarray {A} arr_shape item.
Arguments arr_shape {A} n.
Arguments item {A} n i j.

(** The array written as a list of rows. *)
Definition of_rows {A : Type} (default : A) (rows : list (list A)) : ndarray A :=
  {| arr_shape := (List.length rows, List.length (hd [] rows));
     item := fun i j => nth j (nth i rows []) default |}.

(** A function applied to every cell ([numpy.isfinite(a)], [a != x],
    [a.astype(t)]). *)
Definition arr_map {A B : Type} (fn : A -> B) (arr : ndarray A) : ndarray B :=
  {| arr_shape := arr_shape arr;
     item := fun i j => fn (item arr i j) |}.

Definition shape_eqb (s t : nat * nat) : bool :=
  (fst s =? fst t)%nat && (snd s =? snd t)%nat.

(** numpy broadcasting of [arr] to shape [shp]: an axis must have the wanted
    length or length one, and an axis of length one is repeated. *)
Definition broadcast_to {A : Type} (shp : nat * nat) (arr : ndarray A)
  : option (ndarray A) :=
  let '(rows, cols) := arr_shape arr in
  if ((rows =? fst shp) || (rows =? 1))%nat
     && ((cols =? snd shp) || (cols =? 1))%nat
  then Some {| arr_shape := shp;
               item := fun i j =>
                 item arr (if (rows =? fst shp)%nat then i else 0%nat)
                          (if (cols =? snd shp)%nat then j else 0%nat) |}
  else None.

(** [out op= arr] on boolean arrays: [arr] is broadcast to the shape of [out];
    [None] when numpy refuses the shapes. *)
Definition inplace (op : bool -> bool -> bool) (out arr : ndarray bool)
  : option (ndarray bool) :=
  match broadcast_to (arr_shape out) arr with
  | Some arr' =>
      Some {| arr_shape := arr_shape out;
              item := fun i j => op (item out i j) (item arr' i j) |}
  | None => None
  end.

(** The cells of an array, row after row. *)
Definition cells {A : Type} (arr : ndarray A) : list A :=
  flat_map (fun i => map (fun j => item arr i j) (seq 0 (snd (arr_shape arr))))
    (seq 0 (fst (arr_shape arr))).

(** [numpy.count_nonzero(mask)] *)
Definition count_true (mask : ndarray bool) : nat :=
  List.length (filter (fun v => v) (cells mask)).

(** The only thing read from a dtype: whether
    [numpy.issubdtype(dtype, numpy.floating)] holds. *)
Inductive dtype := Floating | Integer.

(** An image: its [dtype] and its pixels. *)
Record image := mk_image
  { img_dtype : dtype;
    pixels : ndarray pynum }.

(** ** Grids *)

(** [affine.Affine]: [x' = a x + b y + c], [y' = d x + e y + f]. *)
Module Affine.
Record t := mk { a : Qc; b : Qc; c : Qc; d : Qc; e : Qc; f : Qc }.
Definition xoff (m : t) : Qc := c m.
Definition yoff (m : t) : Qc := f m.
(** [m * (x, y)] *)
Definition apply (m : t) (p : Qc * Qc) : Qc * Qc :=
  ((a m * fst p + b m * snd p + c m)%Qc,
   (d m * fst p + e m * snd p + f m)%Qc).
End Affine.

(** [odc.geo.CRS]: how it was written, and its EPSG code when one resolves. *)
Record CRS := mk_CRS
  { crs_str : string;
    epsg : option Z }.

(** [CRS(code)] for an integer EPSG code. *)
Definition CRS_of_epsg (code : Z) : CRS :=
  {| crs_str := "EPSG:" ++ str_of_Z code; epsg := Some code |}.

(** [odc.geo.geobox.GeoBox]: shape [(rows, columns)], transform, CRS. *)
Record GeoBox := mk_GeoBox
  { shape : nat * nat;
    affine : Affine.t;
    crs : option CRS }.

Definition Affine_eq_dec (x y : Affine.t) : {x = y} + {x <> y}.
Proof. decide equality; apply Qc_eq_dec. Defined.

Definition CRS_eq_dec (x y : CRS) : {x = y} + {x <> y}.
Proof.
  decide equality.
  - decide equality. apply Z.eq_dec.
  - apply string_dec.
Defined.

(** Grids are the same dictionary key when shape, transform and CRS agree. *)
Definition GeoBox_eq_dec (x y : GeoBox) : {x = y} + {x <> y}.
Proof.
  decide equality.
  - decide equality. apply CRS_eq_dec.
  - apply Affine_eq_dec.
  - decide equality; apply Nat.eq_dec.
Defined.

(** What the module reads from a grid through odc.geo, and Python's
    formatting of a float. *)
Class OdcGeo := mk_OdcGeo
  { (** [grid.resolution]: the pixel size as [(x, y)] *)
    resolution : GeoBox -> Qc * Qc;
    (** [grid.boundingbox]: [(left, bottom, right, top)] *)
    boundingbox : GeoBox -> Qc * Qc * Qc * Qc;
    (** [f"{x}"] for a float [x] *)
    format_float : Qc -> string }.

(** ** The registry *)

Definition _Measurements := list (string * _MeasurementLocation).

Record MeasurementBundler := mk_bundler
  { _measurements_per_grid : list (GeoBox * _Measurements);
    mask_by_grid : list (GeoBox * ndarray bool) }.

(** [MeasurementBundler()] *)
Definition new_bundler : MeasurementBundler :=
  {| _measurements_per_grid := []; mask_by_grid := [] |}.

(** The loop that opens [record_image]: the first bucket that holds [name]
    gives the location reported as the original. *)
Fixpoint find_duplicate (name : string) (buckets : list (GeoBox * _Measurements))
  : option _MeasurementLocation :=
  match buckets with
  | [] => None
  | (_, measurements) :: rest =>
      match dict_get string_dec name measurements with
      | Some original => Some original
      | None => find_duplicate name rest
      end
  end.

(** The first statement of [_expand_valid_data_mask]: the sentinel, which
    without a [nodata] is NaN for a floating-point image and 0 otherwise. *)
Definition sentinel_of (img : image) (nodata : option pynum) : pynum :=
  match nodata with
  | Some n => n
  | None => match img_dtype img with Floating => NaN | Integer => Int 0 end
  end.

(** Its second statement: the array [valid_values]. *)
Definition valid_values (img : image) (nodata : option pynum) : ndarray bool :=
  let nodata := sentinel_of img nodata in
  if isnan nodata then arr_map isfinite (pixels img)
  else arr_map (fun px => num_neqb px nodata) (pixels img).

Definition _expand_valid_data_mask
    (grid : GeoBox) (img : image) (nodata : option pynum)
    (self : MeasurementBundler) : MeasurementBundler * result unit :=
  let valid_values := valid_values img nodata in
  let store mask :=
    {| _measurements_per_grid := _measurements_per_grid self;
       mask_by_grid := dict_set GeoBox_eq_dec grid mask (mask_by_grid self) |} in
  match dict_get GeoBox_eq_dec grid (mask_by_grid self) with
  | None => (store valid_values, Ok tt)
  | Some mask =>
      (* mask |= valid_values *)
      match inplace orb mask valid_values with
      | Some mask' => (store mask', Ok tt)
      | None => (self, Raise ShapeError)
      end
  end.

(** [GeoBox(grid.shape, grid.affine, grid.crs.epsg)] when the CRS of the grid
    resolves to an EPSG code, the grid itself otherwise. *)
Definition with_epsg_crs (grid : GeoBox) (grid_crs : CRS) : GeoBox :=
  match epsg grid_crs with
  | Some code => mk_GeoBox (shape grid) (affine grid) (Some (CRS_of_epsg code))
  | None => grid
  end.

Definition record_image
    (name : string) (grid : GeoBox) (path : string) (img : image)
    (layer : option string) (nodata : option pynum) (expand_valid_data : bool)
    (self : MeasurementBundler) : MeasurementBundler * result unit :=
  match find_duplicate name (_measurements_per_grid self) with
  | Some original =>
      (self, Raise (DuplicateMeasurementError name original path))
  | None =>
      match crs grid with
      | None => (self, Raise AttributeError)
      | Some grid_crs =>
          let grid := with_epsg_crs grid grid_crs in
          (* defaultdict: a missing bucket is created empty *)
          let bucket :=
            match dict_get GeoBox_eq_dec grid (_measurements_per_grid self) with
            | Some measurements => measurements
            | None => []
            end in
          let self :=
            {| _measurements_per_grid :=
                 dict_set GeoBox_eq_dec grid
                   (dict_set string_dec name (mk_location path layer) bucket)
                   (_measurements_per_grid self);
               mask_by_grid := mask_by_grid self |} in
          if expand_valid_data
          then _expand_valid_data_mask grid img nodata self
          else (self, Ok tt)
      end
  end.

(** [iter_names()]: all known measurement names. *)
Definition iter_names (self : MeasurementBundler) : list string :=
  flat_map (fun gm => map fst (snd gm)) (_measurements_per_grid self).

(** ** Naming the grids *)

Definition NamedGrids := list (string * (GeoBox * _Measurements)).

(** [string.ascii_letters] *)
Definition ascii_letters : string :=
  "abcdefghijklmnopqrstuvwxyzABCDEFGHIJKLMNOPQRSTUVWXYZ".

(** [list(string.ascii_letters)] *)
Definition grid_names : list string :=
  map (fun ch => String ch "") (list_ascii_of_string ascii_letters).

(** [int(x)] for a float: the fraction is dropped. *)
Definition int_of_float (x : Qc) : Z :=
  Z.quot (Qnum x) (Zpos (Qden x)).

Section Naming.
Context `{OdcGeo}.

(** The first loop of [_as_named_grids]: names from the bands of each grid.
    [None] is the [break], [Some] the [else] branch of the loop. *)
Fixpoint name_by_measurements
    (all_measurement_names : list string)
    (grids_by_frequency : list (GeoBox * _Measurements))
    (named_grids : NamedGrids) : option NamedGrids :=
  match grids_by_frequency with
  | [] => Some named_grids
  | (grid, measurements) :: rest =>
      let grid_name :=
        if (List.length measurements =? 1)%nat
        then Some (String.concat "_" (map fst measurements))
        else _find_a_common_name (map fst measurements)
               (Some all_measurement_names) in
      match grid_name with
      | None => None
      | Some grid_name =>
          if dict_mem string_dec grid_name named_grids then None
          else name_by_measurements all_measurement_names rest
                 (named_grids ++ [(grid_name, (grid, measurements))])
      end
  end.

(** The name the second loop gives a grid. *)
Definition resolution_name (grid : GeoBox) : string :=
  let res_x := Qcabs (fst (resolution grid)) in
  if negb (Qle_bool res_x 1) then str_of_Z (int_of_float res_x)
  else format_float res_x.

(** The second loop of [_as_named_grids]: names from the pixel size. *)
Fixpoint name_by_resolution
    (grids_by_frequency : list (GeoBox * _Measurements))
    (named_grids : NamedGrids) : option NamedGrids :=
  match grids_by_frequency with
  | [] => Some named_grids
  | (grid, measurements) :: rest =>
      let grid_name := resolution_name grid in
      if dict_mem string_dec grid_name named_grids then None
      else name_by_resolution rest
             (named_grids ++ [(grid_name, (grid, measurements))])
  end.

(** The grids from most to fewest measurements:
    [sorted(self._measurements_per_grid.items(), key=lambda k: len(k[1]),
    reverse=True)]. *)
Definition grids_by_frequency (self : MeasurementBundler)
  : list (GeoBox * _Measurements) :=
  sorted_desc (fun k : GeoBox * _Measurements => List.length (snd k))
    (_measurements_per_grid self).

Definition _as_named_grids (self : MeasurementBundler) : result NamedGrids :=
  match grids_by_frequency self with
  | [] => Raise IndexError
  | default_grid :: grids_by_frequency =>
      let named_grids := [("default", default_grid)] in
      match grids_by_frequency with
      | [] => Ok named_grids
      | _ =>
          match name_by_measurements (iter_names self) grids_by_frequency
                  named_grids with
          | Some named_grids => Ok named_grids
          | None =>
              match name_by_resolution grids_by_frequency named_grids with
              | Some named_grids => Ok named_grids
              | None =>
                  if (List.length grid_names
                      <? List.length grids_by_frequency)%nat
                  then Raise (TooManyGridsError (List.length grid_names))
                  else Ok (("default", default_grid)
                           :: combine grid_names grids_by_frequency)
              end
          end
      end
  end.
End Naming.

(** ** Valid-data geometry *)

(** A shapely geometry, as the set of points it covers. *)
Definition BaseGeometry := Qc * Qc -> Prop.

(** [shapely.geometry.box(minx, miny, maxx, maxy)] *)
Definition box (minx miny maxx maxy : Qc) : BaseGeometry :=
  fun p => (minx <= fst p /\ fst p <= maxx /\ miny <= snd p /\ snd p <= maxy)%Qc.

(** [shapely.ops.unary_union(geoms)] *)
Definition unary_union (geoms : list BaseGeometry) : BaseGeometry :=
  fun p => exists geom, In geom geoms /\ geom p.

(** [geom.intersection(other)] *)
Definition intersection (geom other : BaseGeometry) : BaseGeometry :=
  fun p => geom p /\ other p.

(** [shapely.affinity.affine_transform(geom, (a, b, d, e, xoff, yoff))]:
    [x' = a x + b y + xoff], [y' = d x + e y + yoff]. *)
Definition affine_transform
    (geom : BaseGeometry) (matrix : Qc * Qc * Qc * Qc * Qc * Qc)
  : BaseGeometry :=
  let '(a, b, d, e, xoff, yoff) := matrix in
  fun p' =>
    exists p, geom p
      /\ p' = ((a * fst p + b * snd p + xoff)%Qc,
               (d * fst p + e * snd p + yoff)%Qc).

Inductive CAP_STYLE := cap_round | cap_flat | cap_square.
Inductive JOIN_STYLE := join_round | join_mitre | join_bevel.

(** What the module takes from rasterio, shapely, scipy and scikit-image
    without looking inside. *)
Class Vector := mk_Vector
  { (** [rasterio.features.shapes(mask)], each shape already a geometry *)
    shapes : ndarray Z -> list (BaseGeometry * Z);
    (** [shape.is_valid] *)
    is_valid : BaseGeometry -> bool;
    (** [shape.buffer(distance, cap_style=, join_style=)] *)
    buffer : BaseGeometry -> Qc -> CAP_STYLE -> JOIN_STYLE -> BaseGeometry;
    (** [shape.convex_hull] *)
    convex_hull : BaseGeometry -> BaseGeometry;
    (** [geom.simplify(tolerance)] *)
    simplify : BaseGeometry -> Qc -> BaseGeometry;
    (** [scipy.ndimage.binary_fill_holes(mask, output=mask)] *)
    binary_fill_holes : ndarray Z -> ndarray Z;
    (** [skimage.morphology.convex_hull_image(mask)] *)
    convex_hull_image : ndarray bool -> ndarray bool }.

(** [ValidDataMethod] *)
Module ValidDataMethod.
Inductive t := thorough | filled | convex_hull | bounds.
End ValidDataMethod.

(** [mask.astype("uint8")] *)
Definition astype_uint8 (mask : ndarray bool) : ndarray Z :=
  arr_map (fun v : bool => if v then 1%Z else 0%Z) mask.

Section ValidData.
Context `{OdcGeo} `{Vector}.

Definition _valid_shape (shape : BaseGeometry) : BaseGeometry :=
  if is_valid shape then shape else buffer shape (Q2Qc 0) cap_round join_round.

Definition _grid_to_poly (grid : GeoBox) (mask : ndarray Z) : BaseGeometry :=
  let shape :=
    unary_union
      (map (fun sv => _valid_shape (fst sv))
         (filter (fun sv => (snd sv =? 1)%Z) (shapes mask))) in
  let '(shape_y, shape_x) := arr_shape mask in
  (* convex hull *)
  let geom := convex_hull shape in
  (* buffer by 1 pixel *)
  let geom := buffer geom (Q2Qc 1) cap_square join_bevel in
  (* simplify with 1 pixel radius *)
  let geom := simplify geom (Q2Qc 1) in
  (* intersect with image bounding box *)
  let geom :=
    intersection geom
      (box (Q2Qc 0) (Q2Qc 0)
         (Qc_of_Z (Z.of_nat shape_x)) (Qc_of_Z (Z.of_nat shape_y))) in
  (* transform from pixel space into CRS space *)
  affine_transform geom
    (Affine.a (affine grid), Affine.b (affine grid),
     Affine.d (affine grid), Affine.e (affine grid),
     Affine.xoff (affine grid), Affine.yoff (affine grid)).

(** [box] over the four numbers of [grid.boundingbox]. *)
Definition bounds_box (grid : GeoBox) : BaseGeometry :=
  let '(minx, miny, maxx, maxy) := boundingbox grid in
  box minx miny maxx maxy.

(** The body of the loop of [consume_and_get_valid_data], after the mask has
    been popped: the geometry of one grid. *)
Definition grid_geometry
    (valid_data_method : ValidDataMethod.t) (grid : GeoBox)
    (mask : ndarray bool) : BaseGeometry :=
  match valid_data_method with
  | ValidDataMethod.bounds => bounds_box grid
  | ValidDataMethod.filled =>
      _grid_to_poly grid (binary_fill_holes (astype_uint8 mask))
  | ValidDataMethod.convex_hull =>
      _grid_to_poly grid (astype_uint8 (convex_hull_image mask))
  | ValidDataMethod.thorough =>
      _grid_to_poly grid (astype_uint8 mask)
  end.

(** [while self.mask_by_grid: ...]: one round per unit of [fuel]; [None] when
    the fuel ends before the dictionary does. *)
Fixpoint consume_loop
    (fuel : nat) (valid_data_method : ValidDataMethod.t)
    (self : MeasurementBundler) (geoms : list BaseGeometry)
  : option (MeasurementBundler * list BaseGeometry) :=
  match popitem (mask_by_grid self) with
  | None => Some (self, geoms)
  | Some ((grid, mask), remaining) =>
      match fuel with
      | O => None
      | S fuel' =>
          let self :=
            {| _measurements_per_grid := _measurements_per_grid self;
               mask_by_grid := remaining |} in
          let geom := grid_geometry valid_data_method grid mask in
          consume_loop fuel' valid_data_method self (geoms ++ [geom])
      end
  end.

(** The list [geoms] when the loop ends, and the registry left behind. *)
Definition consume_geoms
    (valid_data_method : ValidDataMethod.t) (self : MeasurementBundler)
  : option (MeasurementBundler * list BaseGeometry) :=
  consume_loop (List.length (mask_by_grid self)) valid_data_method self [].

Definition consume_and_get_valid_data
    (valid_data_method : ValidDataMethod.t) (self : MeasurementBundler)
  : option (MeasurementBundler * BaseGeometry) :=
  match consume_geoms valid_data_method self with
  | Some (self, geoms) => Some (self, unary_union geoms)
  | None => None
  end.
End ValidData.

(** ** Thumbnail stretch *)

(** [sys.maxsize] *)
Definition sys_maxsize : Z := (2 ^ 63 - 1)%Z.

(** Python's [max(x, y)] and [min(x, y)]: the first argument stays unless the
    second is strictly beyond it. *)
Definition py_max (x y : pynum) : pynum := if num_ltb x y then y else x.
Definition py_min (x y : pynum) : pynum := if num_ltb y x then y else x.

(** [array[mask]]: the cells of [array] where [mask] is true, row after row. *)
Definition select (array : ndarray pynum) (mask : ndarray bool) : list pynum :=
  flat_map
    (fun i =>
       flat_map (fun j => if item mask i j then [item array i j] else [])
         (seq 0 (snd (arr_shape array))))
    (seq 0 (fst (arr_shape array))).

(** [data.any()]: some cell is not zero. *)
Definition any_nonzero (data : list pynum) : bool :=
  existsb (fun x => num_neqb x (Int 0)) data.

Fixpoint insert_asc (x : pynum) (l : list pynum) : list pynum :=
  match l with
  | [] => [x]
  | y :: rest => if num_ltb y x then y :: insert_asc x rest else x :: l
  end.

(** [numpy.around(num / den)] for a non-negative fraction: to the nearest
    integer, a half to the even one. *)
Definition round_half_even (num den : Z) : Z :=
  let fl := (num / den)%Z in
  let r := (num mod den)%Z in
  if (2 * r <? den)%Z then fl
  else if (den <? 2 * r)%Z then (fl + 1)%Z
  else if Z.even fl then fl else (fl + 1)%Z.

(** [numpy.percentile(data, q, method="nearest")] on non-empty data: the
    sorted cell whose index is nearest to [(n - 1) q / 100]; NaN as soon as
    the data hold one. *)
Definition percentile (data : list pynum) (q : Z) : pynum :=
  if existsb isnan data then NaN
  else
    nth (Z.to_nat (round_half_even ((Z.of_nat (List.length data) - 1) * q) 100))
      (fold_right insert_asc [] data) NaN.

(** [array != nodata] for one cell; nothing equals [None]. *)
Definition differs (nodata : option pynum) (px : pynum) : bool :=
  match nodata with
  | Some n => num_neqb px n
  | None => true
  end.

Definition LazyImages := list (ndarray pynum * option pynum).

(** The body of the loop of [read_valid_mask_and_value_range]. *)
Definition read_band
    (calculate_percentiles : option (Z * Z))
    (valid_data_mask : ndarray bool) (calculated_range : pynum * pynum)
    (array : ndarray pynum) (nodata : option pynum)
  : result (ndarray bool * (pynum * pynum)) :=
  match inplace andb valid_data_mask (arr_map (differs nodata) array) with
  | None => Raise ShapeError
  | Some valid_data_mask =>
      match calculate_percentiles with
      | None => Ok (valid_data_mask, calculated_range)
      | Some (q_low, q_high) =>
          if shape_eqb (arr_shape valid_data_mask) (arr_shape array) then
            let the_data := select array valid_data_mask in
            if any_nonzero the_data then
              let low := percentile the_data q_low in
              let high := percentile the_data q_high in
              Ok (valid_data_mask,
                  (py_max low (fst calculated_range),
                   py_min high (snd calculated_range)))
            else Ok (valid_data_mask, calculated_range)
          else Raise ShapeError
      end
  end.

Fixpoint read_bands
    (calculate_percentiles : option (Z * Z))
    (valid_data_mask : ndarray bool) (calculated_range : pynum * pynum)
    (images : LazyImages) : result (ndarray bool * (pynum * pynum)) :=
  match images with
  | [] => Ok (valid_data_mask, calculated_range)
  | (array, nodata) :: rest =>
      match read_band calculate_percentiles valid_data_mask calculated_range
              array nodata with
      | Ok (valid_data_mask, calculated_range) =>
          read_bands calculate_percentiles valid_data_mask calculated_range rest
      | Raise err => Raise err
      end
  end.

(** [read_valid_mask_and_value_range]: the mask it has filled in, and the
    range it returns. *)
Definition read_valid_mask_and_value_range
    (valid_data_mask : ndarray bool) (images : LazyImages)
    (calculate_percentiles : option (Z * Z))
  : result (ndarray bool * (pynum * pynum)) :=
  read_bands calculate_percentiles valid_data_mask
    (Int (- sys_maxsize - 1), Int sys_maxsize) images.

(** ** Reference implementations of the interfaces *)

(** At most [fuel] digits of [num / den] after the decimal point. *)
Fixpoint frac_digits (fuel : nat) (num den : Z) : string :=
  match fuel with
  | O => ""
  | S fuel' =>
      let t := (10 * num)%Z in
      String (ascii_of_nat (48 + Z.to_nat (t / den)))
        (if (t mod den =? 0)%Z then "" else frac_digits fuel' (t mod den) den)
  end.

(** A float in positional notation ([0.5], [1.0], [0.00025]), as Python
    writes the finite decimals from [0.0001] up that have few digits. *)
Definition decimal_str (x : Qc) : string :=
  let n := Z.abs (Qnum x) in
  let den := Zpos (Qden x) in
  (if (Qnum x <? 0)%Z then "-" else "")
  ++ str_of_Z (n / den) ++ "." ++ frac_digits 17 (n mod den) den.

(** odc.geo: the pixel size is read off the transform, and the bounding box
    spans the images of the corners [(0, 0)] and [(columns, rows)]. *)
#[local] Instance odc_geo : OdcGeo :=
  {| resolution := fun grid => (Affine.a (affine grid), Affine.e (affine grid));
     boundingbox := fun grid =>
       let p := Affine.apply (affine grid) (Q2Qc 0, Q2Qc 0) in
       let q := Affine.apply (affine grid)
                  (Qc_of_Z (Z.of_nat (snd (shape grid))),
                   Qc_of_Z (Z.of_nat (fst (shape grid)))) in
       let lo (u v : Qc) := if Qle_bool u v then u else v in
       let hi (u v : Qc) := if Qle_bool u v then v else u in
       (lo (fst p) (fst q), lo (snd p) (snd q),
        hi (fst p) (fst q), hi (snd p) (snd q));
     format_float := decimal_str |}.

(** A plain implementation of [Vector] to run the examples with: one unit
    square per pixel, every shape valid, the hull made of the segments between
    covered points, a buffer that widens by the distance along both axes;
    simplification and the raster filters change nothing. *)
#[export] Instance vector_plain : Vector :=
  {| shapes := fun mask =>
       flat_map
         (fun i =>
            map (fun j =>
                   (box (Qc_of_Z (Z.of_nat j)) (Qc_of_Z (Z.of_nat i))
                        (Qc_of_Z (Z.of_nat (S j))) (Qc_of_Z (Z.of_nat (S i))),
                    item mask i j))
              (seq 0 (snd (arr_shape mask))))
         (seq 0 (fst (arr_shape mask)));
     is_valid := fun _ => true;
     buffer := fun geom distance _ _ =>
       fun p => exists q, geom q
         /\ (Qcabs (fst p - fst q) <= distance)%Qc
         /\ (Qcabs (snd p - snd q) <= distance)%Qc;
     convex_hull := fun geom =>
       fun p => exists q r t, geom q /\ geom r
         /\ (Q2Qc 0 <= t)%Qc /\ (t <= Q2Qc 1)%Qc
         /\ p = ((t * fst q + (Q2Qc 1 - t) * fst r)%Qc,
                 (t * snd q + (Q2Qc 1 - t) * snd r)%Qc);
     simplify := fun geom _ => geom;
     binary_fill_holes := fun mask => mask;
     convex_hull_image := fun mask => mask |}.

(** ** Observing the registry *)

(** [self.mask_by_grid.get(grid)] *)
Definition mask_of (self : MeasurementBundler) (grid : GeoBox)
  : option (ndarray bool) :=
  dict_get GeoBox_eq_dec grid (mask_by_grid self).

(** The number of true pixels of the mask of [grid]; none before the mask
    exists. *)
Definition true_pixels (self : MeasurementBundler) (grid : GeoBox) : nat :=
  match mask_of self grid with
  | Some mask => count_true mask
  | None => 0%nat
  end.

(** The arguments of one call of [record_image]. *)
Record call := mk_call
  { call_name : string;
    call_grid : GeoBox;
    call_path : string;
    call_img : image;
    call_layer : option string;
    call_nodata : option pynum;
    call_expand : bool }.

Definition run_call (c : call) (self : MeasurementBundler)
  : MeasurementBundler * result unit :=
  record_image (call_name c) (call_grid c) (call_path c) (call_img c)
    (call_layer c) (call_nodata c) (call_expand c) self.

(** Calls made one after the other on the same registry; a call that raises
    leaves whatever it had written, and the next call goes on from there. *)
Definition run_calls (calls : list call) (self : MeasurementBundler)
  : MeasurementBundler :=
  fold_left (fun registry c => fst (run_call c registry)) calls self.

(** The second mask keeps every true pixel of the first. *)
Definition covers (mask mask' : ndarray bool) : Prop :=
  arr_shape mask' = arr_shape mask
  /\ forall i j, item mask i j = true -> item mask' i j = true.

(** The registry once every mask is gone. *)
Definition drained (self : MeasurementBundler) : MeasurementBundler :=
  {| _measurements_per_grid := _measurements_per_grid self;
     mask_by_grid := [] |}.

(** ** Containment of geometries *)

(** Every point of [geom] is a point of [bound]. *)
Definition within (geom bound : BaseGeometry) : Prop :=
  forall p, geom p -> bound p.

(** The pixel-space bounding box of a grid, [(0, 0)] to [(columns, rows)],
    carried to CRS space by the transform of the grid. *)
Definition pixel_box_in_crs (grid : GeoBox) : BaseGeometry :=
  fun p =>
    exists q,
      box (Q2Qc 0) (Q2Qc 0)
        (Qc_of_Z (Z.of_nat (snd (shape grid))))
        (Qc_of_Z (Z.of_nat (fst (shape grid)))) q
      /\ p = Affine.apply (affine grid) q.

(** ** The stretch as the specification words it *)




(** ** The stretch as one pass *)



(** ** Example data *)

Definition north_up (pixel : Z) (left top : Z) : Affine.t :=
  Affine.mk (Qc_of_Z pixel) (Q2Qc 0) (Qc_of_Z left)
            (Q2Qc 0) (Qc_of_Z (- pixel)) (Qc_of_Z top).

Definition utm55 : CRS := {| crs_str := "epsg:32655"; epsg := Some 32655%Z |}.

Definition GridA : GeoBox := mk_GeoBox (2, 2)%nat (north_up 30 0 0) (Some utm55).
Definition GridB : GeoBox := mk_GeoBox (4, 4)%nat (north_up 15 0 0) (Some utm55).

Definition ones (rows cols : nat) : image :=
  mk_image Integer (mk_ndarray (rows, cols) (fun _ _ => Int 1)).

(** Run a command on the registry an earlier command left. *)
Definition and_then
    (cmd : MeasurementBundler -> MeasurementBundler * result unit)
    (self : MeasurementBundler) : MeasurementBundler :=
  fst (cmd self).

(** The scenario of the specification: two bands on [GridA], one on [GridB]. *)
Definition nbar_nbart : MeasurementBundler :=
  and_then (record_image "nbart_blue" GridB "nbart_blue.tif" (ones 4 4) None None true)
    (and_then (record_image "nbar_red" GridA "nbar_red.tif" (ones 2 2) None None true)
       (and_then (record_image "nbar_blue" GridA "nbar_blue.tif" (ones 2 2) None None true)
          new_bundler)).

(** The scenario with many grids that no stage before the letters can name:
    grid [i] is [i + 1] rows of 30-unit pixels and holds the bands [p<i>x] and
    [q<i>y], which share neither a beginning nor an end. *)
Definition strip_grid (i : nat) : GeoBox :=
  mk_GeoBox (S i, 1%nat) (north_up 30 0 0) (Some utm55).

Definition record_pair (i : nat) (self : MeasurementBundler) : MeasurementBundler :=
  let n := str_of_Z (Z.of_nat i) in
  and_then (record_image ("q" ++ n ++ "y") (strip_grid i) "q.tif" (ones (S i) 1)
              None None false)
    (and_then (record_image ("p" ++ n ++ "x") (strip_grid i) "p.tif" (ones (S i) 1)
                 None None false)
       self).

Definition many_grids (n : nat) : MeasurementBundler :=
  fold_left (fun self i => record_pair i self) (seq 0 n) new_bundler.

(** The grids of the scenario as the registry keys them. *)
Definition GridA_key : GeoBox := with_epsg_crs GridA utm55.
Definition GridB_key : GeoBox := with_epsg_crs GridB utm55.

(** The grids of [many_grids 27] by frequency: the default grid and the
    others. *)
Definition default_of_27 : GeoBox * _Measurements :=
  hd (GridA, []) (grids_by_frequency (many_grids 27)).

Definition others_of_27 : list (GeoBox * _Measurements) :=
  tl (grids_by_frequency (many_grids 27)).

(** Three images on [GridA]: each adds one pixel of the top row. *)
Definition top_left : image :=
  mk_image Integer (of_rows NaN [[Int 7; Int 0]; [Int 0; Int 0]]).
Definition top_right : image :=
  mk_image Floating (of_rows NaN [[NaN; Num (Q2Qc (1 # 2))]; [PosInf; NaN]]).
Definition three_calls : list call :=
  [mk_call "red" GridA "red.tif" top_left None None true;
   mk_call "red" GridA "again.tif" top_right None None true;
   mk_call "nir" GridA "nir.tif" top_right None None true].

(** Two one-row bands with nodata 0; the first pixel is missing from the
    second band only. *)
Definition band_5_9 : ndarray pynum := of_rows NaN [[Int 5; Int 9]].
Definition band_0_7 : ndarray pynum := of_rows NaN [[Int 0; Int 7]].
Definition two_bands : LazyImages :=
  [(band_5_9, Some (Int 0)); (band_0_7, Some (Int 0))].

(** [numpy.ones(shape, dtype="bool")] *)
Definition all_true (shape : nat * nat) : ndarray bool :=
  mk_ndarray shape (fun _ _ => true).

(** * More of the module *)

(** ** Tiles *)

(** [numpy.arange(0, stop, step)] on integers: [None] for the
    [ZeroDivisionError] of a zero step; otherwise the multiples of [step]
    from 0 that lie before [stop], [ceil(stop / step)] of them. *)
Definition arange (stop step : Z) : option (list Z) :=
  if (step =? 0)%Z then None
  else
    Some (map (fun i => (Z.of_nat i * step)%Z)
            (seq 0 (Z.to_nat (- (- stop / step))))).

(** A tile: [((ystart, yend), (xstart, xend))]. *)
Definition tile := ((Z * Z) * (Z * Z))%type.

(** The end of the tile that starts at [step]: [step + size] when that is
    before [total], [total] otherwise. *)
Definition tile_end (total size step : Z) : Z :=
  if (step + size <? total)%Z then (step + size)%Z else total.

(** The inner generator [create_tiles] of [generate_tiles], with the tile
    sizes it closes over. *)
Definition create_tiles
    (xtile ytile samples lines : Z) (xstart ystart : list Z) : list tile :=
  flat_map
    (fun ystep =>
       let yend := tile_end lines ytile ystep in
       map (fun xstep =>
              let xend := tile_end samples xtile xstep in
              ((ystep, yend), (xstep, xend)))
         xstart)
    ystart.

(** The tile sizes after the check "for default or out of bounds". *)
Definition xtile_or_default (samples : Z) (xtile : option Z) : Z :=
  match xtile with
  | Some size => if (size <? 0)%Z then samples else size
  | None => samples
  end.

Definition ytile_or_default (lines : Z) (ytile : option Z) : Z :=
  match ytile with
  | Some size => if (size <? 0)%Z then Z.min 100 lines else size
  | None => Z.min 100 lines
  end.

(** [generate_tiles(samples, lines, xtile, ytile)], the tiles in the order
    the generator yields them. *)
Definition generate_tiles (samples lines : Z) (xtile ytile : option Z)
  : option (list tile) :=
  let xtile := xtile_or_default samples xtile in
  let ytile := ytile_or_default lines ytile in
  match arange samples xtile with
  | None => None
  | Some xstart =>
      match arange lines ytile with
      | None => None
      | Some ystart =>
          Some (create_tiles xtile ytile samples lines xstart ystart)
      end
  end.



(** ** More of the registry *)

(** [iter_paths()]: all current measurement paths, as [(grid, name, path)]. *)
Definition iter_paths (self : MeasurementBundler)
  : list (GeoBox * string * string) :=
  flat_map
    (fun gm => map (fun nl => (fst gm, fst nl, path (snd nl))) (snd gm))
    (_measurements_per_grid self).

(** [self._measurements_per_grid[grid][name]] is there and is [location]. *)
Definition holds (self : MeasurementBundler) (grid : GeoBox) (name : string)
    (location : _MeasurementLocation) : Prop :=
  exists measurements,
    dict_get GeoBox_eq_dec grid (_measurements_per_grid self)
    = Some measurements
    /\ dict_get string_dec name measurements = Some location.

(** A grid key as [record_image] writes it: it has a CRS, and when that CRS
    resolves to an EPSG code it is the CRS made from the code alone. *)
Definition canonical (grid : GeoBox) : Prop :=
  exists grid_crs, crs grid = Some grid_crs /\ with_epsg_crs grid grid_crs = grid.

(** What every registry filled by [record_image] has: no empty bucket, keys in
    canonical form, and a mask only for a grid that has measurements. *)
Definition filled_by_record (self : MeasurementBundler) : Prop :=
  (forall grid measurements,
      In (grid, measurements) (_measurements_per_grid self) ->
      measurements <> [] /\ canonical grid)
  /\ (forall grid mask,
        In (grid, mask) (mask_by_grid self) ->
        canonical grid
        /\ exists measurements,
             dict_get GeoBox_eq_dec grid (_measurements_per_grid self)
             = Some measurements).

(** The registry a call of [record_image] leaves when it gets past the
    duplicate check and the CRS: the bucket of the key, with the new
    measurement at its end, written back. *)
Definition written (self : MeasurementBundler) (key : GeoBox) (name : string)
    (location : _MeasurementLocation) : list (GeoBox * _Measurements) :=
  dict_set GeoBox_eq_dec key
    (dict_set string_dec name location
       match dict_get GeoBox_eq_dec key (_measurements_per_grid self) with
       | Some measurements => measurements
       | None => []
       end)
    (_measurements_per_grid self).

(** ** Single-band thumbnails *)

(** The exceptions of the thumbnail functions, beside those met before. *)
Inductive thumbnail_error :=
| InvalidFilterArgsError  (* ValueError("Please set either bit or lookup_table ...") *)
| UnboundLocalError       (* out_data read before any assignment *)
| MissingGeoboxError      (* NotImplementedError("generating geobox from numpy ...") *)
| NoNullMaskError         (* ValueError("Must specify either a null mask or a nodata val") *)
| Earlier (e : error).

(** What [_filter_singleband_data] hands back as [out_data]: one array in the
    [bit] mode, a list of three in the [lookup_table] mode. *)
Inductive out_data :=
| OneArray (band : ndarray Z)
| ArrayList (bands : list (ndarray Z)).

(** [out[data == value] = colour] *)
Definition assign_where (data : ndarray Z) (value colour : Z) (out : ndarray Z)
  : ndarray Z :=
  {| arr_shape := arr_shape out;
     item := fun i j =>
       if (item data i j =? value)%Z then colour else item out i j |}.

(** [numpy.full_like(data, 0)] *)
Definition zeros_like (data : ndarray Z) : ndarray Z :=
  {| arr_shape := arr_shape data; item := fun _ _ => 0%Z |}.

(** The loop over [lookup_table.items()]: each entry paints its colour where
    the data has its value, one band after the other. *)
Definition paint_lookup_table
    (data : ndarray Z) (lookup_table : list (Z * (Z * Z * Z)))
    (bands : ndarray Z * ndarray Z * ndarray Z)
  : ndarray Z * ndarray Z * ndarray Z :=
  fold_left
    (fun '(red, green, blue) '(value, (r, g, b)) =>
       (assign_where data value r red,
        assign_where data value g green,
        assign_where data value b blue))
    lookup_table bands.

(** [_filter_singleband_data(data, bit, lookup_table)]: [out_data] and
    [stretch].  A lookup table is a dictionary, given as its items. *)
Definition _filter_singleband_data
    (data : ndarray Z) (bit : option Z)
    (lookup_table : option (list (Z * (Z * Z * Z))))
  : thumbnail_error + (out_data * (Z * Z)) :=
  let after_bit :=
    match bit with
    | Some b =>
        (* out_data = numpy.copy(data); out_data[data != bit] = 0 *)
        Some (OneArray
                {| arr_shape := arr_shape data;
                   item := fun i j =>
                     if negb (item data i j =? b)%Z then 0%Z
                     else item data i j |},
              (0%Z, b))
    | None => None
    end in
  let after_table :=
    match lookup_table with
    | Some table =>
        let '(red, green, blue) :=
          paint_lookup_table data table
            (zeros_like data, zeros_like data, zeros_like data) in
        Some (ArrayList [red; green; blue], (0%Z, 255%Z))
    | None => after_bit
    end in
  match after_table with
  | Some returned => inr returned
  | None => inl UnboundLocalError
  end.

(** The argument [rgb] that [create_thumbnail_singleband_from_numpy] builds:
    [[out_data, out_data, out_data]] or [out_data] itself. *)
Inductive rgb_argument :=
| Thrice (data : out_data)
| Bare (data : out_data).

(** [create_thumbnail_singleband_from_numpy] up to its last call: the
    arguments [rgb] and [static_stretch] it gives
    [create_thumbnail_from_numpy]. *)
Definition create_thumbnail_singleband_from_numpy
    (input_data : ndarray Z) (bit : option Z)
    (lookup_table : option (list (Z * (Z * Z * Z))))
  : thumbnail_error + (rgb_argument * (Z * Z)) :=
  match bit, lookup_table with
  | Some _, Some _ => inl InvalidFilterArgsError
  | None, None => inl InvalidFilterArgsError
  | _, _ =>
      match _filter_singleband_data input_data bit lookup_table with
      | inl err => inl err
      | inr (filtered, stretch) =>
          (* if bit: *)
          let truthy :=
            match bit with
            | Some b => negb (b =? 0)%Z
            | None => false
            end in
          inr (if truthy then Thrice filtered else Bare filtered, stretch)
      end
  end.

(** The colour a lookup table gives a value: that of its last entry for the
    value, black without one. *)
Definition colour_of (lookup_table : list (Z * (Z * Z * Z))) (value : Z)
  : Z * Z * Z :=
  match find (fun entry => (fst entry =? value)%Z) (rev lookup_table) with
  | Some (_, colour) => colour
  | None => (0, 0, 0)%Z
  end.

(** A water mask of one row: the flag 128 and another value. *)
Definition water_row : ndarray Z := of_rows 0%Z [[128; 3]]%Z.

(** ** More example data *)

(** UTM zone 55S given as a name rather than its code: another CRS object
    that resolves to the same EPSG code. *)
Definition utm55_named : CRS :=
  {| crs_str := "WGS 84 / UTM zone 55S"; epsg := Some 32655%Z |}.

Definition GridA_named : GeoBox :=
  mk_GeoBox (2, 2)%nat (north_up 30 0 0) (Some utm55_named).

Definition red_on_GridA : call :=
  mk_call "red" GridA "red.tif" top_left None None true.
Definition nir_on_GridA_named : call :=
  mk_call "nir" GridA_named "nir.tif" top_right None None true.

(** Two bands on the 30-unit [GridA] and two on the 15-unit [GridB], with
    names that share neither a beginning nor an end. *)
Definition two_sizes : MeasurementBundler :=
  and_then (record_image "q1y" GridB "q1.tif" (ones 4 4) None None false)
    (and_then (record_image "p1x" GridB "p1.tif" (ones 4 4) None None false)
       (and_then (record_image "q0y" GridA "q0.tif" (ones 2 2) None None false)
          (and_then (record_image "p0x" GridA "p0.tif" (ones 2 2) None None
                       false)
             new_bundler))).

Definition GridA_of_two_sizes : GeoBox * _Measurements :=
  (GridA_key, [("p0x", mk_location "p0.tif" None);
               ("q0y", mk_location "q0.tif" None)]).
Definition GridB_of_two_sizes : GeoBox * _Measurements :=
  (GridB_key, [("p1x", mk_location "p1.tif" None);
               ("q1y", mk_location "q1.tif" None)]).

Definition names_of_two_sizes : NamedGrids :=
  [("default", GridA_of_two_sizes); ("15", GridB_of_two_sizes)].

(** ** The order of strings *)

(** [a <= b] for strings, written with the test [min] and [max] use. *)
Definition str_le (a b : string) : Prop := String.ltb b a = false.

(** ** Rescaling intensities *)

(** float64 arithmetic on the numbers of this model: exact on the finite
    ones, with the IEEE results for the infinite ones and NaN.  Zero has no
    sign here, so a non-zero number divided by zero is the infinity of the
    sign of the number. *)
Definition num_sign (x : pynum) : comparison :=
  match x with
  | Num q => (q ?= Q2Qc 0)%Qc
  | PosInf => Gt
  | NegInf => Lt
  | NaN => Eq
  end.

Definition signed_inf (sign : comparison) : pynum :=
  match sign with
  | Gt => PosInf
  | Lt => NegInf
  | Eq => NaN
  end.

Definition sign_mul (s t : comparison) : comparison :=
  match s, t with
  | Eq, _ | _, Eq => Eq
  | Gt, Gt | Lt, Lt => Gt
  | _, _ => Lt
  end.

Definition num_neg (x : pynum) : pynum :=
  match x with
  | Num q => Num (- q)%Qc
  | PosInf => NegInf
  | NegInf => PosInf
  | NaN => NaN
  end.

Definition num_add (x y : pynum) : pynum :=
  match x, y with
  | NaN, _ | _, NaN => NaN
  | Num p, Num q => Num (p + q)%Qc
  | PosInf, NegInf | NegInf, PosInf => NaN
  | PosInf, _ | _, PosInf => PosInf
  | NegInf, _ | _, NegInf => NegInf
  end.

Definition num_sub (x y : pynum) : pynum := num_add x (num_neg y).

Definition num_mul (x y : pynum) : pynum :=
  match x, y with
  | NaN, _ | _, NaN => NaN
  | Num p, Num q => Num (p * q)%Qc
  | _, _ => signed_inf (sign_mul (num_sign x) (num_sign y))
  end.

Definition num_div (x y : pynum) : pynum :=
  match x, y with
  | NaN, _ | _, NaN => NaN
  | Num p, Num q =>
      if Qeq_bool q 0 then signed_inf (num_sign x) else Num (p / q)%Qc
  | Num _, _ => Int 0
  | _, Num q =>
      signed_inf
        (sign_mul (num_sign x) (if Qeq_bool q 0 then Gt else num_sign y))
  | _, _ => NaN
  end.

(** [numpy.maximum], [numpy.minimum]: NaN as soon as one side is NaN. *)
Definition np_maximum (x y : pynum) : pynum :=
  if isnan x || isnan y then NaN else if num_ltb x y then y else x.

Definition np_minimum (x y : pynum) : pynum :=
  if isnan x || isnan y then NaN else if num_ltb y x then y else x.

(** [numpy.clip(x, a_min, a_max)], which numpy defines as
    [minimum(a_max, maximum(x, a_min))]. *)
Definition np_clip (x a_min a_max : pynum) : pynum :=
  np_minimum a_max (np_maximum x a_min).

(** [numpy.iinfo(numpy.uint8)]: [min] and [max]. *)
Definition iinfo_uint8 : Z * Z := (0, 255)%Z.

Section Rescale.
(** What the platform makes of a float that has no [uint8] value when it is
    cast to one (NaN, an infinity, a number of -1 or less or of 256 or
    more), and of an integer outside [0..255] stored into a [uint8] array:
    numpy leaves it to the C compiler. *)
Variable unportable_cast : pynum -> Z.

(** [x.astype(numpy.uint8)] for a float: the fraction is dropped. *)
Definition float_to_uint8 (x : pynum) : Z :=
  match x with
  | Num q =>
      if Qle_bool q (-1) || Qle_bool 256 q then unportable_cast x
      else int_of_float q
  | _ => unportable_cast x
  end.

Definition int_to_uint8 (n : Z) : Z :=
  if ((0 <=? n) && (n <=? 255))%Z then n else unportable_cast (Int n).

(** [rescale_intensity] with its default [out_dtype], [numpy.uint8].  Each
    statement on the array is one [arr_map]; [image[image_null_mask] =
    out_nodata] needs a mask of the shape of the image. *)
Definition rescale_intensity
    (image : ndarray pynum) (in_range : pynum * pynum)
    (out_range : option (Z * Z)) (image_nodata : option pynum)
    (image_null_mask : option (ndarray bool)) (out_nodata : Z)
  : thumbnail_error + ndarray Z :=
  let null_mask :=
    match image_null_mask with
    | Some mask => Some mask
    | None =>
        match image_nodata with
        | Some nodata => Some (arr_map (fun px => num_eqb px nodata) image)
        | None => None
        end
    end in
  match null_mask with
  | None => inl NoNullMaskError
  | Some image_null_mask =>
      let '(imin, imax) := in_range in
      let '(omin, omax) :=
        match out_range with
        | Some range => range
        | None => iinfo_uint8
        end in
      let image := arr_map (fun px => np_clip px imin imax) image in
      let image := arr_map (fun px => num_sub px imin) image in
      let image := arr_map (fun px => num_div px (num_sub imax imin)) image in
      let image := arr_map (fun px => num_mul px (Int (omax - omin))) image in
      let image := arr_map (fun px => num_add px (Int omin)) image in
      let image := arr_map float_to_uint8 image in
      if shape_eqb (arr_shape image_null_mask) (arr_shape image) then
        inr {| arr_shape := arr_shape image;
               item := fun i j =>
                 if item image_null_mask i j then int_to_uint8 out_nodata
                 else item image i j |}
      else inl (Earlier IndexError)
  end.

(** [_iter_arrays(rgb, nodata)] *)
Definition _iter_arrays (rgb : list (ndarray pynum)) (nodata : option pynum)
  : LazyImages :=
  map (fun data => (data, nodata)) rgb.

(** The loop over the bands of [_write_to_numpy_array] and
    [_write_quicklook]: each band rescaled, until one fails. *)
Fixpoint rescale_bands
    (images : LazyImages) (valid_data_mask : ndarray bool)
    (in_range : pynum * pynum) : thumbnail_error + list (ndarray Z) :=
  match images with
  | [] => inr []
  | (image, _) :: rest =>
      match rescale_intensity image in_range (Some (1, 255)%Z) None
              (Some (arr_map negb valid_data_mask)) 0 with
      | inl err => inl err
      | inr source =>
          match rescale_bands rest valid_data_mask in_range with
          | inl err => inl err
          | inr sources => inr (source :: sources)
          end
      end
  end.

(** [static_range or calculated_range] *)
Definition range_or (static_range : option (pynum * pynum))
    (calculated_range : pynum * pynum) : pynum * pynum :=
  match static_range with
  | Some range => range
  | None => calculated_range
  end.

(** [_write_to_numpy_array] up to the reprojection: the rescaled bands it
    hands to [reproject] as sources, which have 0 as their nodata.  The
    output grid, which rasterio computes before the bands are read, and the
    reprojection itself are not part of the model. *)
Definition _write_to_numpy_array
    (rgb : list (ndarray pynum)) (static_range : option (pynum * pynum))
    (percentile_range : option (Z * Z)) (input_geobox : option GeoBox)
    (nodata : option pynum) : thumbnail_error + list (ndarray Z) :=
  match input_geobox with
  | None => inl MissingGeoboxError
  | Some input_geobox =>
      let valid_data_mask := all_true (shape input_geobox) in
      match read_valid_mask_and_value_range valid_data_mask
              (_iter_arrays rgb nodata) percentile_range with
      | Raise err => inl (Earlier err)
      | Ok (valid_data_mask, calculated_range) =>
          rescale_bands (_iter_arrays rgb nodata) valid_data_mask
            (range_or static_range calculated_range)
      end
  end.
End Rescale.

(** ** Example data for the stretch *)

(** A platform on which every unportable cast gives 0. *)
Definition cast_to_zero : pynum -> Z := fun _ => 0%Z.


(** A grid of one row of two pixels, for the bands of [two_bands]. *)
Definition pair_grid : GeoBox :=
  mk_GeoBox (1, 2)%nat (north_up 30 0 0) (Some utm55).

(** ** Geo documents *)

(** [GridDoc(shape, transform)] and
    [MeasurementDoc(path=, layer=, grid=)] of the dataset model. *)
Record GridDoc := mk_GridDoc
  { doc_shape : nat * nat;
    doc_transform : Affine.t }.

Record MeasurementDoc := mk_MeasurementDoc
  { doc_path : string;
    doc_layer : option string;
    doc_grid : option string }.

(** The exceptions of [as_geo_docs]: its own [ValueError], with the two
    CRSs of the message, and those of [_as_named_grids]. *)
Inductive geo_error :=
| DifferentCrsError (first_crs other_crs : CRS)
| NamingError (e : error).

(** What [as_geo_docs] returns: [(None, None, None)] or the CRS and the two
    dictionaries. *)
Inductive geo_docs :=
| NoDocs
| Docs (crs : option CRS) (grid_docs : list (string * GridDoc))
       (measurement_docs : list (string * MeasurementDoc)).

(** [name.replace(":", "_")] *)
Fixpoint replace_colon (name : string) : string :=
  match name with
  | "" => ""
  | String c rest =>
      String (if Ascii.eqb c ":" then "_"%char else c) (replace_colon rest)
  end.

Section GeoDocs.
Context `{OdcGeo}.

(** Equality of two CRSs that have no common footing in EPSG codes, which
    odc.geo leaves to pyproj. *)
Variable pyproj_eq : CRS -> CRS -> bool.

(** [CRS.__eq__] of odc.geo: by the EPSG codes when both sides have one. *)
Definition crs_eqb (x y : CRS) : bool :=
  match epsg x, epsg y with
  | Some code, Some code' => (code =? code')%Z
  | _, _ => pyproj_eq x y
  end.

(** The inner loop of [as_geo_docs] over the measurements of one grid. *)
Definition add_measurement_docs
    (grid_name : string) (measurements : _Measurements)
    (measurement_docs : list (string * MeasurementDoc))
  : list (string * MeasurementDoc) :=
  fold_left
    (fun docs '(measurement_name, measurement_path) =>
       dict_set string_dec (replace_colon measurement_name)
         {| doc_path := path measurement_path;
            doc_layer := layer measurement_path;
            doc_grid :=
              if String.eqb grid_name "default" then None
              else Some grid_name |}
         docs)
    measurements measurement_docs.

(** The check "all grids should have same CRS" at one grid: the CRS to go
    on with, or the error. *)
Definition check_crs (crs_so_far : option CRS) (grid : GeoBox)
  : geo_error + option CRS :=
  match crs_so_far with
  | None => inr (crs grid)
  | Some first_crs =>
      match crs grid with
      | Some grid_crs =>
          if negb (crs_eqb grid_crs first_crs)
          then inl (DifferentCrsError first_crs grid_crs)
          else inr crs_so_far
      | None => inr crs_so_far
      end
  end.

(** The loop of [as_geo_docs] over the named grids. *)
Fixpoint geo_docs_loop
    (named_grids : NamedGrids) (crs_so_far : option CRS)
    (grid_docs : list (string * GridDoc))
    (measurement_docs : list (string * MeasurementDoc))
  : geo_error + geo_docs :=
  match named_grids with
  | [] => inr (Docs crs_so_far grid_docs measurement_docs)
  | (grid_name, (grid, measurements)) :: rest =>
      match check_crs crs_so_far grid with
      | inl err => inl err
      | inr crs_so_far =>
          geo_docs_loop rest crs_so_far
            (dict_set string_dec grid_name
               (mk_GridDoc (shape grid) (affine grid)) grid_docs)
            (add_measurement_docs grid_name measurements measurement_docs)
      end
  end.

Definition as_geo_docs (self : MeasurementBundler) : geo_error + geo_docs :=
  match _measurements_per_grid self with
  | [] => inr NoDocs
  | _ =>
      match _as_named_grids self with
      | Raise err => inl (NamingError err)
      | Ok named_grids => geo_docs_loop named_grids None [] []
      end
  end.
End GeoDocs.

(** Two bands on [GridA] whose names differ only by a colon. *)
Definition colon_pair : MeasurementBundler :=
  and_then (record_image "oa_fmask" GridA "second.tif" (ones 2 2) None None
              true)
    (and_then (record_image "oa:fmask" GridA "first.tif" (ones 2 2) None None
                 true)
       new_bundler).

(** * Properties *)

(** ** Dictionaries *)

Section DictFacts.
Context {K V : Type} (eq_dec : forall x y : K, {x = y} + {x <> y}).

Lemma dict_mem_get (k : K) (d : list (K * V)) :
  dict_mem eq_dec k d = true -> exists v, dict_get eq_dec k d = Some v.
Proof.
  unfold dict_mem. destruct (dict_get eq_dec k d) as [v|]; [|discriminate].
  intros _. now exists v.
Qed.

Lemma dict_get_set_same (k : K) (v : V) (d : list (K * V)) :
  dict_get eq_dec k (dict_set eq_dec k v d) = Some v.
Proof.
  induction d as [|[k' v'] d IH]; simpl.
  - now destruct (eq_dec k k).
  - destruct (eq_dec k k') as [->|Hne]; simpl.
    + now destruct (eq_dec k' k').
    + now destruct (eq_dec k k').
Qed.

Lemma dict_get_set_other (k k0 : K) (v : V) (d : list (K * V)) :
  k0 <> k -> dict_get eq_dec k0 (dict_set eq_dec k v d) = dict_get eq_dec k0 d.
Proof.
  intros Hne. induction d as [|[k' v'] d IH]; simpl.
  - now destruct (eq_dec k0 k).
  - destruct (eq_dec k k') as [->|Hkk']; simpl.
    + now destruct (eq_dec k0 k').
    + destruct (eq_dec k0 k'); [reflexivity|exact IH].
Qed.

Lemma dict_get_app_fresh (k : K) (v : V) (d rest : list (K * V)) :
  dict_get eq_dec k d = None ->
  dict_get eq_dec k (d ++ (k, v) :: rest) = Some v.
Proof.
  induction d as [|[k' v'] d IH]; simpl.
  - intros _. now destruct (eq_dec k k).
  - destruct (eq_dec k k'); [discriminate|exact IH].
Qed.

End DictFacts.

Lemma popitem_snoc {K V : Type} (d : list (K * V)) (kv : K * V) :
  popitem (d ++ [kv]) = Some (kv, d).
Proof. unfold popitem. rewrite rev_app_distr. simpl. now rewrite rev_involutive. Qed.

(** ** Recording a measurement *)

Lemma find_duplicate_found name buckets grid measurements :
  In (grid, measurements) buckets ->
  dict_mem string_dec name measurements = true ->
  exists original grid' measurements',
    find_duplicate name buckets = Some original
    /\ In (grid', measurements') buckets
    /\ dict_get string_dec name measurements' = Some original.
Proof.
  induction buckets as [|[g ms] buckets IH]; simpl; [contradiction|].
  intros Hin Hmem.
  destruct (dict_get string_dec name ms) as [loc|] eqn:Hget.
  - exists loc, g, ms. auto.
  - destruct Hin as [[= -> ->]|Hin].
    + apply dict_mem_get in Hmem. destruct Hmem as [v Hv]. congruence.
    + destruct (IH Hin Hmem) as (original & g' & ms' & Hfind & Hin' & Hget').
      exists original, g', ms'. auto.
Qed.

(** C3. Whatever the registry holds, a call of [record_image] whose [name] is
    already a key of the bucket of some grid, the grid of the call or any
    other, raises the duplicate-measurement error; the error carries the
    location recorded for that name (the original path) and the path of the
    call. *)
Theorem record_image_duplicate_name
    (self : MeasurementBundler) (name : string) (grid : GeoBox) (path : string)
    (img : image) (layer : option string) (nodata : option pynum)
    (expand_valid_data : bool) (held_by : GeoBox) (measurements : _Measurements) :
  In (held_by, measurements) (_measurements_per_grid self) ->
  dict_mem string_dec name measurements = true ->
  exists original grid' measurements',
    In (grid', measurements') (_measurements_per_grid self)
    /\ dict_get string_dec name measurements' = Some original
    /\ snd (record_image name grid path img layer nodata expand_valid_data self)
       = Raise (DuplicateMeasurementError name original path).
Proof.
  intros Hin Hmem.
  destruct (find_duplicate_found name _ _ _ Hin Hmem)
    as (original & g' & ms' & Hfind & Hin' & Hget).
  exists original, g', ms'. repeat split; trivial.
  unfold record_image. now rewrite Hfind.
Qed.

Lemma record_image_duplicate_name_witness :
  In (mk_GeoBox (2, 2)%nat (north_up 30 0 0) (Some (CRS_of_epsg 32655)),
      [("nbar_blue", mk_location "nbar_blue.tif" None);
       ("nbar_red", mk_location "nbar_red.tif" None)])
     (_measurements_per_grid nbar_nbart)
  /\ exists original grid' measurements',
       In (grid', measurements') (_measurements_per_grid nbar_nbart)
       /\ dict_get string_dec "nbar_red" measurements' = Some original
       /\ snd (record_image "nbar_red" GridB "other.tif" (ones 4 4) None None
                 true nbar_nbart)
          = Raise (DuplicateMeasurementError "nbar_red" original "other.tif").
Proof.
  assert (Hin : In (mk_GeoBox (2, 2)%nat (north_up 30 0 0)
                      (Some (CRS_of_epsg 32655)),
                    [("nbar_blue", mk_location "nbar_blue.tif" None);
                     ("nbar_red", mk_location "nbar_red.tif" None)])
                   (_measurements_per_grid nbar_nbart))
    by (left; reflexivity).
  split; [exact Hin|].
  exact (record_image_duplicate_name nbar_nbart "nbar_red" GridB "other.tif"
           (ones 4 4) None None true _ _ Hin eq_refl).
Defined.

(** C10. When [record_image] raises the duplicate-measurement error, the
    registry it leaves is the registry it was given: the measurements of every
    grid and every mask are as before. *)
Theorem record_image_duplicate_keeps_registry
    (self : MeasurementBundler) (name : string) (grid : GeoBox) (path : string)
    (img : image) (layer : option string) (nodata : option pynum)
    (expand_valid_data : bool)
    (name' : string) (original : _MeasurementLocation) (now : string) :
  snd (record_image name grid path img layer nodata expand_valid_data self)
  = Raise (DuplicateMeasurementError name' original now) ->
  fst (record_image name grid path img layer nodata expand_valid_data self)
  = self.
Proof.
  unfold record_image.
  destruct (find_duplicate name (_measurements_per_grid self)); [reflexivity|].
  destruct (crs grid) as [grid_crs|]; [|discriminate].
  destruct expand_valid_data; [|discriminate].
  unfold _expand_valid_data_mask. cbv zeta.
  destruct (dict_get GeoBox_eq_dec _ _) as [mask|]; [|discriminate].
  destruct (inplace orb mask _); discriminate.
Qed.

Lemma record_image_duplicate_keeps_registry_witness :
  snd (record_image "nbar_red" GridB "other.tif" (ones 4 4) None None true
         nbar_nbart)
  = Raise (DuplicateMeasurementError "nbar_red"
             (mk_location "nbar_red.tif" None) "other.tif")
  /\ fst (record_image "nbar_red" GridB "other.tif" (ones 4 4) None None true
            nbar_nbart)
     = nbar_nbart.
Proof.
  split; [reflexivity|].
  exact (record_image_duplicate_keeps_registry nbar_nbart "nbar_red" GridB
           "other.tif" (ones 4 4) None None true _ _ _ eq_refl).
Defined.

(** The other failure of [record_image] comes after the bucket was written:
    an image that does not fit the mask of its grid raises, and its name stays
    recorded. *)
Example shape_error_keeps_measurement :
  let after :=
    record_image "nbar_green" GridA "nbar_green.tif" (ones 3 3) None None true
      nbar_nbart in
  snd after = Raise ShapeError
  /\ iter_names (fst after)
     = ["nbar_blue"; "nbar_red"; "nbar_green"; "nbart_blue"].
Proof. split; reflexivity. Qed.

(** ** The coverage mask *)

Lemma count_row_le (f g : nat -> bool) (cols : list nat) :
  (forall j, f j = true -> g j = true) ->
  (List.length (filter (fun v : bool => v) (map f cols))
   <= List.length (filter (fun v : bool => v) (map g cols)))%nat.
Proof.
  intros Hfg. induction cols as [|j cols IH]; simpl; [lia|].
  destruct (f j) eqn:Hf.
  - rewrite (Hfg j Hf). simpl. lia.
  - destruct (g j); simpl; lia.
Qed.

Lemma count_true_covers (mask mask' : ndarray bool) :
  covers mask mask' -> (count_true mask <= count_true mask')%nat.
Proof.
  intros [Hshape Hitem]. unfold count_true, cells. rewrite Hshape.
  induction (seq 0 (fst (arr_shape mask))) as [|i rows IH]; simpl; [lia|].
  rewrite !filter_app, !length_app.
  apply Nat.add_le_mono; [|exact IH].
  apply (count_row_le (fun j => item mask i j) (fun j => item mask' i j)).
  exact (Hitem i).
Qed.

Lemma covers_refl (mask : ndarray bool) : covers mask mask.
Proof. split; auto. Qed.

Lemma covers_trans (m1 m2 m3 : ndarray bool) :
  covers m1 m2 -> covers m2 m3 -> covers m1 m3.
Proof.
  intros [Hs12 Hi12] [Hs23 Hi23]. split; [congruence|auto].
Qed.

Lemma inplace_orb_covers (mask arr mask' : ndarray bool) :
  inplace orb mask arr = Some mask' -> covers mask mask'.
Proof.
  unfold inplace. destruct (broadcast_to (arr_shape mask) arr); [|discriminate].
  intros [= <-]. split; simpl; [reflexivity|].
  intros i j ->. reflexivity.
Qed.

(** What one call does to the mask of any grid. *)
Lemma run_call_covers (c : call) (self : MeasurementBundler) (grid : GeoBox)
    (mask : ndarray bool) :
  mask_of self grid = Some mask ->
  exists mask', mask_of (fst (run_call c self)) grid = Some mask'
                /\ covers mask mask'.
Proof.
  intros Hmask. unfold run_call, record_image.
  destruct (find_duplicate _ _);
    [exists mask; split; [exact Hmask|apply covers_refl]|].
  destruct (crs (call_grid c)) as [grid_crs|];
    [|exists mask; split; [exact Hmask|apply covers_refl]].
  destruct (call_expand c);
    [|exists mask; split; [exact Hmask|apply covers_refl]].
  unfold _expand_valid_data_mask. cbv zeta. cbn [mask_by_grid].
  set (key := with_epsg_crs (call_grid c) grid_crs).
  destruct (dict_get GeoBox_eq_dec key (mask_by_grid self)) as [old|] eqn:Hold.
  - destruct (inplace orb old _) as [new|] eqn:Hnew;
      [|exists mask; split; [exact Hmask|apply covers_refl]].
    unfold mask_of. cbn [fst mask_by_grid].
    destruct (GeoBox_eq_dec grid key) as [->|Hne].
    + rewrite dict_get_set_same. exists new. split; [reflexivity|].
      unfold mask_of in Hmask. rewrite Hold in Hmask. injection Hmask as <-.
      now apply inplace_orb_covers in Hnew.
    + rewrite dict_get_set_other by exact Hne.
      exists mask. split; [exact Hmask|apply covers_refl].
  - unfold mask_of. cbn [fst mask_by_grid].
    destruct (GeoBox_eq_dec grid key) as [->|Hne].
    + unfold mask_of in Hmask. congruence.
    + rewrite dict_get_set_other by exact Hne.
      exists mask. split; [exact Hmask|apply covers_refl].
Qed.

Lemma run_calls_covers (calls : list call) (self : MeasurementBundler)
    (grid : GeoBox) (mask : ndarray bool) :
  mask_of self grid = Some mask ->
  exists mask', mask_of (run_calls calls self) grid = Some mask'
                /\ covers mask mask'.
Proof.
  revert self mask. induction calls as [|c calls IH]; intros self mask Hmask.
  - exists mask. split; [exact Hmask|apply covers_refl].
  - destruct (run_call_covers c self grid mask Hmask) as (m1 & Hm1 & Hc1).
    destruct (IH _ _ Hm1) as (m2 & Hm2 & Hc2).
    exists m2. split; [exact Hm2|]. eapply covers_trans; eassumption.
Qed.

(** The mask of the grid of a successful call: the validity of the image,
    or-ed into the mask found there. *)
Lemma record_image_mask
    (self : MeasurementBundler) (name : string) (grid : GeoBox) (path : string)
    (img : image) (layer : option string) (nodata : option pynum)
    (grid_crs : CRS) :
  crs grid = Some grid_crs ->
  snd (record_image name grid path img layer nodata true self) = Ok tt ->
  match mask_of self (with_epsg_crs grid grid_crs) with
  | None =>
      mask_of (fst (record_image name grid path img layer nodata true self))
        (with_epsg_crs grid grid_crs)
      = Some (valid_values img nodata)
  | Some mask =>
      exists valid mask',
        broadcast_to (arr_shape mask) (valid_values img nodata) = Some valid
        /\ mask_of (fst (record_image name grid path img layer nodata true self))
             (with_epsg_crs grid grid_crs)
           = Some mask'
        /\ arr_shape mask' = arr_shape mask
        /\ forall i j, item mask' i j = item mask i j || item valid i j
  end.
Proof.
  intros Hcrs. unfold record_image. rewrite Hcrs.
  destruct (find_duplicate _ _); [discriminate|].
  unfold _expand_valid_data_mask, mask_of. cbv zeta. cbn [mask_by_grid].
  set (key := with_epsg_crs grid grid_crs).
  destruct (dict_get GeoBox_eq_dec key (mask_by_grid self)) as [old|] eqn:Hold.
  - unfold inplace.
    destruct (broadcast_to (arr_shape old) (valid_values img nodata))
      as [valid|]; [|discriminate].
    intros _. cbn [fst mask_by_grid]. rewrite dict_get_set_same.
    eexists valid, _. repeat split; reflexivity.
  - intros _. cbn [fst mask_by_grid]. now rewrite dict_get_set_same.
Qed.

(** C6. Over any sequence of [record_image] calls, the number of true pixels
    of the mask of a grid never goes down, and a mask that exists keeps its
    shape and every pixel that was true; a successful call with
    [expand_valid_data] creates the mask of its grid as the validity of its
    image when there is none, and otherwise replaces it by the cell-by-cell OR
    of the mask with that validity. *)
Theorem coverage_mask_only_grows
    (calls : list call) (self : MeasurementBundler) (grid : GeoBox) :
  (true_pixels self grid <= true_pixels (run_calls calls self) grid)%nat
  /\ (forall mask, mask_of self grid = Some mask ->
        exists mask', mask_of (run_calls calls self) grid = Some mask'
                      /\ covers mask mask')
  /\ (forall c grid_crs,
        crs (call_grid c) = Some grid_crs ->
        call_expand c = true ->
        snd (run_call c self) = Ok tt ->
        match mask_of self (with_epsg_crs (call_grid c) grid_crs) with
        | None =>
            mask_of (fst (run_call c self))
              (with_epsg_crs (call_grid c) grid_crs)
            = Some (valid_values (call_img c) (call_nodata c))
        | Some mask =>
            exists valid mask',
              broadcast_to (arr_shape mask)
                (valid_values (call_img c) (call_nodata c)) = Some valid
              /\ mask_of (fst (run_call c self))
                   (with_epsg_crs (call_grid c) grid_crs)
                 = Some mask'
              /\ arr_shape mask' = arr_shape mask
              /\ forall i j, item mask' i j = item mask i j || item valid i j
        end).
Proof.
  split; [|split].
  - unfold true_pixels. destruct (mask_of self grid) as [mask|] eqn:Hmask; [|lia].
    destruct (run_calls_covers calls self grid mask Hmask) as (mask' & -> & Hc).
    now apply count_true_covers.
  - apply run_calls_covers.
  - intros c grid_crs Hcrs Hexpand. unfold run_call. rewrite Hexpand.
    now apply record_image_mask.
Qed.

(** The pixel counts of [GridA] along [three_calls]: the first call finds one
    valid pixel, the second is refused as a duplicate, the third adds the
    other pixel of the top row. *)
Example coverage_mask_counts :
  let grid := with_epsg_crs GridA utm55 in
  map (fun n => true_pixels (run_calls (firstn n three_calls) new_bundler) grid)
    [0; 1; 2; 3]%nat
  = [0; 1; 1; 2]%nat.
Proof. reflexivity. Qed.

(** ** Validity of a pixel *)

Lemma broadcast_to_same {A : Type} (arr : ndarray A) :
  exists arr', broadcast_to (arr_shape arr) arr = Some arr'
               /\ arr_shape arr' = arr_shape arr
               /\ forall i j, item arr' i j = item arr i j.
Proof.
  unfold broadcast_to. destruct (arr_shape arr) as [rows cols] eqn:Hshape.
  cbn [fst snd]. rewrite !Nat.eqb_refl. cbn [orb andb].
  eexists. split; [reflexivity|]. split; reflexivity.
Qed.





(** The masks two images leave on a new registry, read row by row: an
    integer image against 0, a floating-point image against NaN. *)
Example default_nodata_masks :
  let mask_after img :=
    option_map cells
      (mask_of (fst (record_image "b" GridA "b.tif" img None None true
                       new_bundler))
         (with_epsg_crs GridA utm55)) in
  mask_after top_left = Some [true; false; false; false]
  /\ mask_after top_right = Some [false; true; false; false].
Proof. split; reflexivity. Qed.

(** ** Consuming the masks *)

Section Consume.
Context `{OdcGeo} `{Vector}.

(** With a unit of fuel per mask the loop ends: it leaves no mask and has
    appended one geometry per mask, last recorded first. *)
Lemma consume_loop_drains
    (valid_data_method : ValidDataMethod.t)
    (measurements : list (GeoBox * _Measurements))
    (masks : list (GeoBox * ndarray bool)) :
  forall (fuel : nat) (geoms : list BaseGeometry),
    (List.length masks <= fuel)%nat ->
    consume_loop fuel valid_data_method
      {| _measurements_per_grid := measurements; mask_by_grid := masks |} geoms
    = Some ({| _measurements_per_grid := measurements; mask_by_grid := [] |},
            geoms ++ map (fun gm => grid_geometry valid_data_method
                                      (fst gm) (snd gm))
                       (rev masks)).
Proof.
  induction masks as [|[grid mask] masks IH] using rev_ind; intros fuel geoms Hfuel.
  - destruct fuel; simpl; now rewrite app_nil_r.
  - rewrite length_app in Hfuel. simpl in Hfuel.
    destruct fuel as [|fuel]; [lia|].
    cbn [consume_loop mask_by_grid _measurements_per_grid].
    rewrite popitem_snoc.
    rewrite IH by lia.
    rewrite rev_app_distr. simpl. now rewrite <- app_assoc.
Qed.

Lemma consume_geoms_drains
    (valid_data_method : ValidDataMethod.t) (self : MeasurementBundler) :
  consume_geoms valid_data_method self
  = Some (drained self,
          map (fun gm => grid_geometry valid_data_method (fst gm) (snd gm))
            (rev (mask_by_grid self))).
Proof.
  unfold consume_geoms, drained. destruct self as [measurements masks].
  cbn [mask_by_grid _measurements_per_grid].
  now rewrite consume_loop_drains.
Qed.

(** C5. [consume_and_get_valid_data] always returns; the registry it leaves
    has no mask and the same measurements for every grid, so that the grids
    are named as before.  One round of the loop removes the mask it turns into
    geometry before the next round starts, and there is one geometry per
    mask.  A second call finds no mask and returns the union of nothing, a
    geometry without points. *)
Theorem consume_evicts_every_mask
    (valid_data_method : ValidDataMethod.t) (self : MeasurementBundler) :
  exists geom,
    consume_and_get_valid_data valid_data_method self
    = Some (drained self, geom)
    /\ mask_by_grid (drained self) = []
    /\ _measurements_per_grid (drained self) = _measurements_per_grid self
    /\ _as_named_grids (drained self) = _as_named_grids self
    /\ (forall masks grid mask,
          mask_by_grid self = masks ++ [(grid, mask)] ->
          consume_geoms valid_data_method self
          = consume_loop (List.length masks) valid_data_method
              {| _measurements_per_grid := _measurements_per_grid self;
                 mask_by_grid := masks |}
              [grid_geometry valid_data_method grid mask])
    /\ (exists geoms,
          consume_geoms valid_data_method self = Some (drained self, geoms)
          /\ List.length geoms = List.length (mask_by_grid self)
          /\ geom = unary_union geoms)
    /\ consume_and_get_valid_data valid_data_method (drained self)
       = Some (drained self, unary_union [])
    /\ forall p, ~ unary_union [] p.
Proof.
  exists (unary_union
            (map (fun gm => grid_geometry valid_data_method (fst gm) (snd gm))
               (rev (mask_by_grid self)))).
  split.
  { unfold consume_and_get_valid_data. now rewrite consume_geoms_drains. }
  split; [reflexivity|]. split; [reflexivity|]. split; [reflexivity|].
  split; [|split; [|split]].
  - intros masks grid mask Hmasks. unfold consume_geoms. rewrite Hmasks.
    rewrite length_app, Nat.add_comm. cbn [List.length Nat.add consume_loop].
    rewrite Hmasks, popitem_snoc. reflexivity.
  - eexists. split; [apply consume_geoms_drains|]. split; [|reflexivity].
    now rewrite length_map, length_rev.
  - unfold consume_and_get_valid_data. rewrite consume_geoms_drains.
    reflexivity.
  - intros p (geom & Hin & _). exact Hin.
Qed.

End Consume.

(** ** The polygon of a grid *)

(** C8. The polygon [_grid_to_poly] makes from a mask of the shape of its
    grid lies within the pixel-space bounding box of the grid carried to CRS
    space by the transform of the grid; so does the geometry that the
    [thorough] method gives a coverage mask of that shape. *)
Theorem grid_to_poly_within_pixel_box
    `{Vector} (grid : GeoBox) (mask : ndarray Z) :
  arr_shape mask = shape grid ->
  within (_grid_to_poly grid mask) (pixel_box_in_crs grid)
  /\ forall `{OdcGeo} (coverage : ndarray bool),
       arr_shape coverage = shape grid ->
       within (grid_geometry ValidDataMethod.thorough grid coverage)
         (pixel_box_in_crs grid).
Proof.
  assert (Hpoly : forall m : ndarray Z,
             arr_shape m = shape grid ->
             within (_grid_to_poly grid m) (pixel_box_in_crs grid)).
  { intros m Hshape p. unfold _grid_to_poly, pixel_box_in_crs.
    rewrite Hshape. destruct (shape grid) as [shape_y shape_x].
    cbn [affine_transform fst snd].
    intros (q & [_ Hbox] & ->). exists q. split; [exact Hbox|].
    reflexivity. }
  intros Hshape. split; [now apply Hpoly|].
  intros geo coverage Hcoverage. cbn [grid_geometry]. now apply Hpoly.
Qed.

Lemma grid_to_poly_within_pixel_box_witness :
  arr_shape (astype_uint8 (all_true (2, 2)%nat)) = shape GridA
  /\ within (_grid_to_poly GridA (astype_uint8 (all_true (2, 2)%nat)))
       (pixel_box_in_crs GridA).
Proof.
  split; [reflexivity|].
  exact (proj1 (grid_to_poly_within_pixel_box GridA
                  (astype_uint8 (all_true (2, 2)%nat)) eq_refl)).
Defined.

(** ** The scenario, consumed *)

(** With [bounds], the two masks of the scenario go last recorded first and
    leave the rectangles of their grids. *)
Example consume_bounds_of_scenario :
  @consume_geoms odc_geo vector_plain ValidDataMethod.bounds nbar_nbart
  = Some (drained nbar_nbart, [bounds_box GridB_key; bounds_box GridA_key])
  /\ (let '(minx, miny, maxx, maxy) := boundingbox GridA_key in
      [this minx; this miny; this maxx; this maxy])
     = [0; - (60); 60; 0]%Q.
Proof. split; reflexivity. Qed.

Ltac qc_le := unfold Qcle, Qle; vm_compute; discriminate.

(** The polygon of a fully valid 2 by 2 mask on [GridA] is not empty: it
    holds the image (30, -30) of the middle (1, 1) of the pixel box. *)
Example grid_to_poly_holds_the_middle :
  @_grid_to_poly vector_plain GridA (astype_uint8 (all_true (2, 2)%nat))
    (Qc_of_Z 30, Qc_of_Z (-30)).
Proof.
  unfold _grid_to_poly. cbn [arr_shape astype_uint8 arr_map all_true].
  exists (Q2Qc 1, Q2Qc 1). split.
  - split.
    + (* buffered hull *)
      exists (Q2Qc 1, Q2Qc 1). split; [|split; cbn [fst snd]; qc_le].
      exists (Q2Qc 1, Q2Qc 1), (Q2Qc 1, Q2Qc 1), (Q2Qc 1).
      assert (Hin : unary_union
                      (map (fun sv => _valid_shape (fst sv))
                         (filter (fun sv : BaseGeometry * Z => (snd sv =? 1)%Z)
                            (shapes (astype_uint8 (all_true (2, 2)%nat)))))
                      (Q2Qc 1, Q2Qc 1)).
      { eexists. split; [left; reflexivity|].
        cbn [_valid_shape is_valid vector_plain fst].
        unfold box. cbn [fst snd]. repeat split; qc_le. }
      split; [exact Hin|]. split; [exact Hin|].
      split; [qc_le|]. split; [qc_le|].
      cbn [fst snd]. f_equal; apply Qc_is_canon; reflexivity.
    + unfold box. cbn [fst snd]. repeat split; qc_le.
  - cbn [fst snd]. f_equal; apply Qc_is_canon; reflexivity.
Qed.

(** ** Naming *)

Section SortingFacts.
Context {A : Type} (key : A -> nat).

Lemma insert_desc_not_nil (x : A) (l : list A) : insert_desc key x l <> [].
Proof. destruct l as [|y l]; simpl; [|destruct (_ <? _)%nat]; discriminate. Qed.

(** The head of the sorted list is the first entry of the list with the
    largest key. *)
Lemma sorted_desc_head (l : list A) (x : A) (rest : list A) :
  sorted_desc key l = x :: rest ->
  exists before after,
    l = before ++ x :: after
    /\ (forall y, In y before -> (key y < key x)%nat)
    /\ (forall y, In y after -> (key y <= key x)%nat).
Proof.
  revert x rest. induction l as [|a l IH]; intros x rest; [discriminate|].
  simpl. destruct (sorted_desc key l) as [|h t] eqn:Hsorted.
  - intros [= <- <-]. exists [], l. split; [reflexivity|].
    split; [contradiction|].
    destruct l as [|b l]; [contradiction|].
    simpl in Hsorted. now apply insert_desc_not_nil in Hsorted.
  - destruct (IH h t eq_refl) as (before & after & -> & Hbefore & Hafter).
    simpl. destruct (key a <? key h)%nat eqn:Hlt.
    + apply Nat.ltb_lt in Hlt. intros [= <- <-].
      exists (a :: before), after. split; [reflexivity|].
      split; [|exact Hafter].
      intros y [<-|Hy]; [exact Hlt|now apply Hbefore].
    + apply Nat.ltb_ge in Hlt. intros [= <- <-].
      exists [], (before ++ h :: after). split; [reflexivity|].
      split; [contradiction|].
      intros y Hy. apply in_app_or in Hy.
      destruct Hy as [Hy|[<-|Hy]].
      * specialize (Hbefore y Hy). lia.
      * exact Hlt.
      * specialize (Hafter y Hy). lia.
Qed.
End SortingFacts.

Lemma map_fst_combine {A B : Type} (l : list A) (l' : list B) :
  map fst (combine l l') = firstn (List.length l') l.
Proof.
  revert l'. induction l as [|x l IH]; intros [|y l']; simpl; trivial.
  now rewrite IH.
Qed.

Lemma map_snd_combine {A B : Type} (l : list A) (l' : list B) :
  (List.length l' <= List.length l)%nat -> map snd (combine l l') = l'.
Proof.
  revert l'. induction l as [|x l IH]; intros [|y l']; simpl; trivial; [lia|].
  intros Hlen. rewrite IH by lia. reflexivity.
Qed.

Section NamingFacts.
Context `{OdcGeo}.

(** The loops only add names after the ones they start from. *)
Lemma name_by_measurements_extends all_names grids :
  forall named0 named,
    name_by_measurements all_names grids named0 = Some named ->
    exists added, named = named0 ++ added.
Proof.
  induction grids as [|[grid measurements] grids IH]; intros named0 named; simpl.
  - intros [= <-]. exists []. now rewrite app_nil_r.
  - destruct (if (List.length measurements =? 1)%nat then _ else _)
      as [grid_name|]; [|discriminate].
    destruct (dict_mem string_dec grid_name named0); [discriminate|].
    intros Hrest. destruct (IH _ _ Hrest) as [added ->].
    rewrite <- app_assoc. now eexists.
Qed.

Lemma name_by_resolution_extends grids :
  forall named0 named,
    name_by_resolution grids named0 = Some named ->
    exists added, named = named0 ++ added.
Proof.
  induction grids as [|[grid measurements] grids IH]; intros named0 named; simpl.
  - intros [= <-]. exists []. now rewrite app_nil_r.
  - destruct (dict_mem string_dec _ named0); [discriminate|].
    intros Hrest. destruct (IH _ _ Hrest) as [added ->].
    rewrite <- app_assoc. now eexists.
Qed.

(** When the first loop ends without a [break], a grid with a single band is
    found under the name of that band. *)
Lemma name_by_measurements_single all_names grids :
  forall named0 named,
    name_by_measurements all_names grids named0 = Some named ->
    forall grid name location,
      In (grid, [(name, location)]) grids ->
      dict_get string_dec name named = Some (grid, [(name, location)]).
Proof.
  induction grids as [|[grid0 measurements] grids IH];
    intros named0 named Hnamed grid name location Hin; [contradiction|].
  simpl in Hnamed.
  destruct (if (List.length measurements =? 1)%nat then _ else _)
    as [grid_name|] eqn:Hname; [|discriminate].
  destruct (dict_mem string_dec grid_name named0) eqn:Hmem; [discriminate|].
  destruct Hin as [[= -> ->]|Hin]; [|now apply (IH _ _ Hnamed)].
  simpl in Hname. injection Hname as <-.
  destruct (name_by_measurements_extends _ _ _ _ Hnamed) as [added ->].
  rewrite <- app_assoc. apply dict_get_app_fresh.
  unfold dict_mem in Hmem.
  now destruct (dict_get string_dec name named0).
Qed.

Lemma dict_get_default (default_grid : GeoBox * _Measurements)
    (added : NamedGrids) :
  dict_get string_dec "default" (("default", default_grid) :: added)
  = Some default_grid.
Proof. simpl. now destruct (string_dec "default" "default"). Qed.

(** Every way [_as_named_grids] returns keeps the head of the frequency
    order under ["default"]. *)
Lemma as_named_grids_default (self : MeasurementBundler) (named : NamedGrids) :
  _as_named_grids self = Ok named ->
  exists default_grid rest,
    grids_by_frequency self = default_grid :: rest
    /\ dict_get string_dec "default" named = Some default_grid.
Proof.
  unfold _as_named_grids.
  destruct (grids_by_frequency self) as [|default_grid rest]; [discriminate|].
  intros Hnamed. exists default_grid, rest. split; [reflexivity|].
  destruct rest as [|other rest].
  { injection Hnamed as <-. apply dict_get_default. }
  destruct (name_by_measurements _ _ _) as [named1|] eqn:Hfirst.
  { injection Hnamed as <-.
    destruct (name_by_measurements_extends _ _ _ _ Hfirst) as [added ->].
    apply dict_get_default. }
  destruct (name_by_resolution _ _) as [named2|] eqn:Hsecond.
  { injection Hnamed as <-.
    destruct (name_by_resolution_extends _ _ _ Hsecond) as [added ->].
    apply dict_get_default. }
  destruct (_ <? _)%nat; [discriminate|].
  injection Hnamed as <-. apply dict_get_default.
Qed.

(** C4. When [_as_named_grids] returns, the name ["default"] is held by the
    grid with the most measurements, the first of them in insertion order
    when several have as many.  When the first naming loop names every other
    grid, its names are the result, and every other grid with exactly one
    measurement is found under the name of that measurement.  With
    [nbar_blue] and [nbar_red] recorded on grid A and [nbart_blue] on grid B,
    the result is ["default"] for A with both bands and ["nbart_blue"] for
    B. *)
Theorem default_grid_and_single_band_names
    (self : MeasurementBundler) (named : NamedGrids) :
  _as_named_grids self = Ok named ->
  (exists before default_grid after,
      _measurements_per_grid self = before ++ default_grid :: after
      /\ (forall other, In other before ->
            (List.length (snd other) < List.length (snd default_grid))%nat)
      /\ (forall other, In other after ->
            (List.length (snd other) <= List.length (snd default_grid))%nat)
      /\ dict_get string_dec "default" named = Some default_grid)
  /\ (forall default_grid rest named1,
        grids_by_frequency self = default_grid :: rest ->
        name_by_measurements (iter_names self) rest
          [("default", default_grid)] = Some named1 ->
        named = named1
        /\ forall grid name location,
             In (grid, [(name, location)]) rest ->
             dict_get string_dec name named
             = Some (grid, [(name, location)]))
  /\ _as_named_grids nbar_nbart
     = Ok [("default",
            (GridA_key, [("nbar_blue", mk_location "nbar_blue.tif" None);
                         ("nbar_red", mk_location "nbar_red.tif" None)]));
           ("nbart_blue",
            (GridB_key, [("nbart_blue", mk_location "nbart_blue.tif" None)]))].
Proof.
  intros Hnamed. split; [|split].
  - destruct (as_named_grids_default self named Hnamed)
      as (default_grid & rest & Hsorted & Hdefault).
    unfold grids_by_frequency in Hsorted.
    destruct (sorted_desc_head _ _ _ _ Hsorted)
      as (before & after & Hsplit & Hbefore & Hafter).
    exists before, default_grid, after. auto.
  - intros default_grid rest named1 Hsorted Hfirst.
    assert (Hsame : named = named1).
    { unfold _as_named_grids in Hnamed. rewrite Hsorted in Hnamed.
      destruct rest as [|other rest].
      - simpl in Hfirst. congruence.
      - rewrite Hfirst in Hnamed. congruence. }
    split; [exact Hsame|]. subst named1.
    now apply (name_by_measurements_single _ _ _ _ Hfirst).
  - reflexivity.
Qed.
End NamingFacts.

Lemma default_grid_and_single_band_names_witness :
  @_as_named_grids odc_geo nbar_nbart
  = Ok [("default",
         (GridA_key, [("nbar_blue", mk_location "nbar_blue.tif" None);
                      ("nbar_red", mk_location "nbar_red.tif" None)]));
        ("nbart_blue",
         (GridB_key, [("nbart_blue", mk_location "nbart_blue.tif" None)]))]
  /\ exists before default_grid after,
       _measurements_per_grid nbar_nbart = before ++ default_grid :: after
       /\ (forall other, In other before ->
             (List.length (snd other) < List.length (snd default_grid))%nat)
       /\ (forall other, In other after ->
             (List.length (snd other) <= List.length (snd default_grid))%nat)
       /\ dict_get string_dec "default"
            [("default",
              (GridA_key, [("nbar_blue", mk_location "nbar_blue.tif" None);
                           ("nbar_red", mk_location "nbar_red.tif" None)]));
             ("nbart_blue",
              (GridB_key,
               [("nbart_blue", mk_location "nbart_blue.tif" None)]))]
          = Some default_grid.
Proof.
  split; [reflexivity|].
  exact (proj1 (@default_grid_and_single_band_names odc_geo nbar_nbart _
                  eq_refl)).
Defined.

(** ** The letter names *)

Example grid_names_are_52_letters :
  List.length grid_names = 52%nat
  /\ firstn 3 grid_names = ["a"; "b"; "c"]
  /\ skipn 25 (firstn 28 grid_names) = ["z"; "A"; "B"].
Proof. repeat split. Qed.

(** C1, as the code has it.  When neither the names of the bands nor the
    pixel sizes name the grids other than the default one, those grids get
    the letters of [string.ascii_letters] one after the other, in frequency
    order; there are 52 letters, a to z and then A to Z, and only with more
    than 52 such grids the call raises the too-many-grids error. *)
Theorem as_named_grids_letters
    `{OdcGeo} (self : MeasurementBundler)
    (default_grid : GeoBox * _Measurements)
    (rest : list (GeoBox * _Measurements)) :
  grids_by_frequency self = default_grid :: rest ->
  name_by_measurements (iter_names self) rest [("default", default_grid)]
  = None ->
  name_by_resolution rest [("default", default_grid)] = None ->
  ((52 < List.length rest)%nat ->
   _as_named_grids self = Raise (TooManyGridsError 52))
  /\ ((List.length rest <= 52)%nat ->
      exists named,
        _as_named_grids self = Ok named
        /\ map fst named = "default" :: firstn (List.length rest) grid_names
        /\ map snd named = default_grid :: rest).
Proof.
  intros Hsorted Hfirst Hsecond.
  unfold _as_named_grids. rewrite Hsorted.
  destruct rest as [|other rest]; [discriminate|].
  rewrite Hfirst, Hsecond.
  change (List.length grid_names) with 52%nat.
  split; intros Hlen.
  - apply Nat.ltb_lt in Hlen. now rewrite Hlen.
  - apply Nat.ltb_ge in Hlen as Hltb. rewrite Hltb.
    eexists. split; [reflexivity|].
    cbn [map fst snd].
    rewrite map_fst_combine, map_snd_combine; [split; reflexivity|exact Hlen].
Qed.

Lemma as_named_grids_letters_witness :
  grids_by_frequency (many_grids 27) = default_of_27 :: others_of_27
  /\ name_by_measurements (iter_names (many_grids 27)) others_of_27
       [("default", default_of_27)] = None
  /\ @name_by_resolution odc_geo others_of_27 [("default", default_of_27)]
     = None
  /\ ((52 < List.length others_of_27)%nat ->
      @_as_named_grids odc_geo (many_grids 27) = Raise (TooManyGridsError 52))
  /\ ((List.length others_of_27 <= 52)%nat ->
      exists named,
        @_as_named_grids odc_geo (many_grids 27) = Ok named
        /\ map fst named
           = "default" :: firstn (List.length others_of_27) grid_names
        /\ map snd named = default_of_27 :: others_of_27).
Proof.
  assert (Hsorted : grids_by_frequency (many_grids 27)
                    = default_of_27 :: others_of_27)
    by (vm_compute; reflexivity).
  assert (Hfirst : name_by_measurements (iter_names (many_grids 27))
                     others_of_27 [("default", default_of_27)] = None)
    by (vm_compute; reflexivity).
  assert (Hsecond : @name_by_resolution odc_geo others_of_27
                      [("default", default_of_27)] = None)
    by (vm_compute; reflexivity).
  split; [exact Hsorted|]. split; [exact Hfirst|]. split; [exact Hsecond|].
  exact (@as_named_grids_letters odc_geo (many_grids 27) default_of_27
           others_of_27 Hsorted Hfirst Hsecond).
Defined.

(** C1, as the claim has it, fails: a registry of 27 distinct grids that
    neither the band names nor the pixel sizes can name does not raise; it
    gets ["default"] and the letters a to z.  No grid has a common name for
    its two bands, and all have the pixel size 30. *)
Lemma letters_name_27_grids :
  List.length (_measurements_per_grid (many_grids 27)) = 27%nat
  /\ NoDup (map fst (_measurements_per_grid (many_grids 27)))
  /\ forallb
       (fun gm : GeoBox * _Measurements =>
          match _find_a_common_name (map fst (snd gm))
                  (Some (iter_names (many_grids 27))) with
          | None => true
          | Some _ => false
          end)
       (_measurements_per_grid (many_grids 27)) = true
  /\ map (fun gm : GeoBox * _Measurements => @resolution_name odc_geo (fst gm))
       (_measurements_per_grid (many_grids 27)) = repeat "30" 27
  /\ name_by_measurements (iter_names (many_grids 27)) others_of_27
       [("default", default_of_27)] = None
  /\ @name_by_resolution odc_geo others_of_27 [("default", default_of_27)]
     = None
  /\ exists named,
       @_as_named_grids odc_geo (many_grids 27) = Ok named
       /\ map fst named
          = ["default"; "a"; "b"; "c"; "d"; "e"; "f"; "g"; "h"; "i"; "j"; "k";
             "l"; "m"; "n"; "o"; "p"; "q"; "r"; "s"; "t"; "u"; "v"; "w"; "x";
             "y"; "z"]
       /\ map snd named = grids_by_frequency (many_grids 27).
Proof.
  split; [vm_compute; reflexivity|]. split.
  { apply (NoDup_map_inv (fun grid : GeoBox => fst (shape grid))).
    rewrite map_map.
    replace (map _ _) with (seq 1 27) by (vm_compute; reflexivity).
    apply seq_NoDup. }
  split; [vm_compute; reflexivity|]. split; [vm_compute; reflexivity|].
  split; [vm_compute; reflexivity|]. split; [vm_compute; reflexivity|].
  eexists. split; [vm_compute; reflexivity|].
  split; vm_compute; reflexivity.
Qed.

(** With 54 such grids, 53 beside the default one, the letters run out. *)
Example letters_run_out_at_54_grids :
  List.length (_measurements_per_grid (many_grids 54)) = 54%nat
  /\ @_as_named_grids odc_geo (many_grids 53)
     <> Raise (TooManyGridsError 52)
  /\ @_as_named_grids odc_geo (many_grids 54) = Raise (TooManyGridsError 52).
Proof.
  split; [vm_compute; reflexivity|]. split; [|vm_compute; reflexivity].
  vm_compute. discriminate.
Qed.

(** ** The stretch *)

Lemma shape_eqb_refl (s : nat * nat) : shape_eqb s s = true.
Proof. unfold shape_eqb. now rewrite !Nat.eqb_refl. Qed.

Lemma inplace_same_shape (op : bool -> bool -> bool) (out arr : ndarray bool) :
  arr_shape arr = arr_shape out ->
  exists out',
    inplace op out arr = Some out'
    /\ arr_shape out' = arr_shape out
    /\ forall i j, item out' i j = op (item out i j) (item arr i j).
Proof.
  intros Hshape. unfold inplace.
  destruct (broadcast_to_same arr) as (arr' & Hcast & _ & Hitem).
  rewrite Hshape in Hcast. rewrite Hcast.
  eexists. split; [reflexivity|]. split; [reflexivity|].
  intros i j. cbn [item]. now rewrite Hitem.
Qed.




Section SinglePass.
Variables (q_low q_high : Z) (mask0 : ndarray bool).

End SinglePass.




(** Two behaviours the statement of C2 above leaves out.  A NaN nodata masks
    nothing, not even a NaN pixel, where [_expand_valid_data_mask] would test
    for it; and a band whose valid pixels are all zero is passed over like a
    band without valid pixels. *)
Example stretch_nan_nodata_and_zero_band :
  (exists mask range,
      read_valid_mask_and_value_range (all_true (1, 2)%nat)
        [(of_rows NaN [[NaN; Int 3]], Some NaN)] None
      = Ok (mask, range)
      /\ cells mask = [true; true]
      /\ cells (valid_values
                  (mk_image Floating (of_rows NaN [[NaN; Int 3]])) (Some NaN))
         = [false; true])
  /\ exists mask,
       read_valid_mask_and_value_range (all_true (1, 2)%nat)
         [(of_rows NaN [[Int 0; Int 0]], Some (Int (-999)))] (Some (2, 98)%Z)
       = Ok (mask, (Int (- sys_maxsize - 1), Int sys_maxsize))
       /\ cells mask = [true; true].
Proof.
  split.
  - eexists. eexists. split; [reflexivity|]. split; reflexivity.
  - eexists. split; [vm_compute; reflexivity|]. reflexivity.
Qed.

(** * Properties of the rest of the module *)

(** ** Tiles *)

(** The docstring example of [generate_tiles]. *)
Example generate_tiles_docstring :
  generate_tiles 1624 1567 (Some 1000%Z) (Some 400%Z)
  = Some [((0, 400), (0, 1000)); ((0, 400), (1000, 1624));
          ((400, 800), (0, 1000)); ((400, 800), (1000, 1624));
          ((800, 1200), (0, 1000)); ((800, 1200), (1000, 1624));
          ((1200, 1567), (0, 1000)); ((1200, 1567), (1000, 1624))]%Z.
Proof. reflexivity. Qed.



Section OneAxis.
Variables (total size : Z).
Hypothesis size_pos : (0 < size)%Z.





End OneAxis.








(** X3. [generate_tiles] raises exactly when a tile size is zero once the
    defaults are in: a size given as 0, or a size left out (or negative) on
    an axis of length 0.  An empty array with default sizes raises; it does
    not give an empty list of tiles. *)
Theorem generate_tiles_raises_on_zero_tile
    (samples lines : Z) (xtile ytile : option Z) :
  (generate_tiles samples lines xtile ytile = None
   <-> xtile = Some 0%Z \/ ytile = Some 0%Z
       \/ (samples = 0%Z /\ (xtile = None \/ exists size, xtile = Some size
                                                       /\ (size < 0)%Z))
       \/ (lines = 0%Z /\ (ytile = None \/ exists size, ytile = Some size
                                                     /\ (size < 0)%Z)))
  /\ generate_tiles 0 0 None None = None
  /\ generate_tiles 0 0 (Some 10%Z) (Some 10%Z) = Some [].
Proof.
  split; [|split; reflexivity].
  unfold generate_tiles, arange.
  assert (Hx : (xtile_or_default samples xtile =? 0)%Z = true
               <-> xtile = Some 0%Z
                   \/ (samples = 0%Z
                       /\ (xtile = None
                           \/ exists size, xtile = Some size /\ (size < 0)%Z))).
  { unfold xtile_or_default. rewrite Z.eqb_eq.
    destruct xtile as [size|].
    - destruct (size <? 0)%Z eqn:Hneg.
      + apply Z.ltb_lt in Hneg. split.
        * intros ->. right. split; trivial. right. now exists size.
        * intros [[= ->]|[-> _]]; [lia|trivial].
      + apply Z.ltb_ge in Hneg. split.
        * intros ->. now left.
        * intros [[= ->]|[_ [Hnone|(size' & [= <-] & Hlt)]]];
            [trivial|discriminate|lia].
    - split.
      + intros ->. right. split; trivial. now left.
      + intros [Hsome|[-> _]]; [discriminate|trivial]. }
  assert (Hy : (ytile_or_default lines ytile =? 0)%Z = true
               <-> ytile = Some 0%Z
                   \/ (lines = 0%Z
                       /\ (ytile = None
                           \/ exists size, ytile = Some size /\ (size < 0)%Z))).
  { unfold ytile_or_default. rewrite Z.eqb_eq.
    destruct ytile as [size|].
    - destruct (size <? 0)%Z eqn:Hneg.
      + apply Z.ltb_lt in Hneg. split.
        * intros Hmin. right. split; [lia|]. right. now exists size.
        * intros [[= ->]|[-> _]]; [lia|trivial].
      + apply Z.ltb_ge in Hneg. split.
        * intros ->. now left.
        * intros [[= ->]|[_ [Hnone|(size' & [= <-] & Hlt)]]];
            [trivial|discriminate|lia].
    - split.
      + intros Hmin. right. split; [lia|]. now left.
      + intros [Hsome|[-> _]]; [discriminate|trivial]. }
  destruct (xtile_or_default samples xtile =? 0)%Z eqn:Hxz.
  - split; [intros _|trivial].
    destruct (proj1 Hx eq_refl) as [H|H]; tauto.
  - destruct (ytile_or_default lines ytile =? 0)%Z eqn:Hyz.
    + split; [intros _|trivial].
      destruct (proj1 Hy eq_refl) as [H|H]; tauto.
    + split; [discriminate|].
      intros [H|[H|[H|H]]].
      * assert (false = true) by (apply Hx; tauto). discriminate.
      * assert (false = true) by (apply Hy; tauto). discriminate.
      * assert (false = true) by (apply Hx; tauto). discriminate.
      * assert (false = true) by (apply Hy; tauto). discriminate.
Qed.

(** ** The registry as a dictionary of dictionaries *)

Section MoreDictFacts.
Context {K V : Type} (eq_dec : forall x y : K, {x = y} + {x <> y}).

Lemma dict_get_In (k : K) (v : V) (d : list (K * V)) :
  dict_get eq_dec k d = Some v -> In (k, v) d.
Proof.
  induction d as [|[k' v'] d IH]; simpl; [discriminate|].
  destruct (eq_dec k k') as [->|_].
  - intros [= ->]. now left.
  - intros Hget. right. now apply IH.
Qed.

Lemma dict_get_None_keys (k : K) (d : list (K * V)) :
  dict_get eq_dec k d = None <-> ~ In k (map fst d).
Proof.
  induction d as [|[k' v'] d IH]; simpl; [tauto|].
  destruct (eq_dec k k') as [->|Hne].
  - split; [discriminate|]. intros Hnot. exfalso. apply Hnot. now left.
  - rewrite IH. split.
    + intros Hnot [Heq|Hin]; [congruence|tauto].
    + intros Hnot Hin. apply Hnot. now right.
Qed.

(** Writing a key that is not there appends it. *)
Lemma dict_set_fresh (k : K) (v : V) (d : list (K * V)) :
  dict_get eq_dec k d = None -> dict_set eq_dec k v d = d ++ [(k, v)].
Proof.
  induction d as [|[k' v'] d IH]; simpl; trivial.
  destruct (eq_dec k k'); [discriminate|].
  intros Hget. now rewrite IH.
Qed.

(** Writing a key that is there replaces its first entry in place. *)
Lemma dict_set_found (k : K) (v v0 : V) (d : list (K * V)) :
  dict_get eq_dec k d = Some v0 ->
  exists before after,
    d = before ++ (k, v0) :: after
    /\ dict_get eq_dec k before = None
    /\ dict_set eq_dec k v d = before ++ (k, v) :: after.
Proof.
  induction d as [|[k' v'] d IH]; simpl; [discriminate|].
  destruct (eq_dec k k') as [->|Hne].
  - intros [= ->]. exists [], d. auto.
  - intros Hget. destruct (IH Hget) as (before & after & -> & Hnone & ->).
    exists ((k', v') :: before), after. repeat split; trivial.
    simpl. now destruct (eq_dec k k').
Qed.

Lemma dict_set_keys_In (k k0 : K) (v : V) (d : list (K * V)) :
  In k0 (map fst (dict_set eq_dec k v d)) <-> k0 = k \/ In k0 (map fst d).
Proof.
  induction d as [|[k' v'] d IH]; simpl.
  - intuition.
  - destruct (eq_dec k k') as [->|Hne]; simpl; [intuition|].
    rewrite IH. intuition.
Qed.
End MoreDictFacts.

(** The scan that opens [record_image] finds nothing exactly when the name is
    not one of [iter_names]. *)
Lemma find_duplicate_None (name : string)
    (buckets : list (GeoBox * _Measurements)) :
  find_duplicate name buckets = None
  <-> ~ In name (flat_map (fun gm => map fst (snd gm)) buckets).
Proof.
  induction buckets as [|[grid measurements] buckets IH]; simpl; [tauto|].
  rewrite in_app_iff.
  destruct (dict_get string_dec name measurements) as [location|] eqn:Hget.
  - split; [discriminate|]. intros Hnot. exfalso. apply Hnot. left.
    apply dict_get_In in Hget. apply in_map_iff. now exists (name, location).
  - apply dict_get_None_keys in Hget. rewrite IH. tauto.
Qed.

Lemma In_dict_set {K V : Type} (eq_dec : forall x y : K, {x = y} + {x <> y})
    (k : K) (v : V) (d : list (K * V)) (entry : K * V) :
  In entry (dict_set eq_dec k v d) -> entry = (k, v) \/ In entry d.
Proof.
  induction d as [|[k' v'] d IH]; simpl.
  - intros [<-|[]]. now left.
  - destruct (eq_dec k k') as [->|Hne]; simpl.
    + intros [<-|Hin]; auto.
    + intros [<-|Hin]; auto. destruct (IH Hin); auto.
Qed.

Lemma dict_set_not_nil {K V : Type}
    (eq_dec : forall x y : K, {x = y} + {x <> y})
    (k : K) (v : V) (d : list (K * V)) :
  dict_set eq_dec k v d <> [].
Proof.
  destruct d as [|[k' v'] d]; simpl; [discriminate|].
  destruct (eq_dec k k'); discriminate.
Qed.

Lemma dict_get_set {K V : Type} (eq_dec : forall x y : K, {x = y} + {x <> y})
    (k k0 : K) (v : V) (d : list (K * V)) :
  dict_get eq_dec k0 (dict_set eq_dec k v d)
  = if eq_dec k0 k then Some v else dict_get eq_dec k0 d.
Proof.
  destruct (eq_dec k0 k) as [->|Hne].
  - apply dict_get_set_same.
  - now apply dict_get_set_other.
Qed.

(** The measurements a call of [record_image] leaves: those it was given when
    it stops at the duplicate check or at the CRS, the written ones
    otherwise, also when the mask then refuses the image. *)
Lemma record_image_measurements
    (self : MeasurementBundler) (name : string) (grid : GeoBox) (path : string)
    (img : image) (layer : option string) (nodata : option pynum)
    (expand_valid_data : bool) :
  _measurements_per_grid
    (fst (record_image name grid path img layer nodata expand_valid_data self))
  = match find_duplicate name (_measurements_per_grid self), crs grid with
    | None, Some grid_crs =>
        written self (with_epsg_crs grid grid_crs) name (mk_location path layer)
    | _, _ => _measurements_per_grid self
    end.
Proof.
  unfold record_image.
  destruct (find_duplicate name (_measurements_per_grid self)); trivial.
  destruct (crs grid) as [grid_crs|]; trivial.
  destruct expand_valid_data; trivial.
  unfold _expand_valid_data_mask. cbv zeta.
  destruct (dict_get GeoBox_eq_dec _ _) as [mask|]; trivial.
  destruct (inplace orb mask _); trivial.
Qed.

(** A call that succeeds got past the duplicate check. *)
Lemma record_image_ok_fresh
    (self : MeasurementBundler) (name : string) (grid : GeoBox) (path : string)
    (img : image) (layer : option string) (nodata : option pynum)
    (expand_valid_data : bool) :
  snd (record_image name grid path img layer nodata expand_valid_data self)
  = Ok tt ->
  find_duplicate name (_measurements_per_grid self) = None.
Proof.
  unfold record_image.
  now destruct (find_duplicate name (_measurements_per_grid self)).
Qed.

Lemma fresh_in_bucket (self : MeasurementBundler) (key : GeoBox)
    (name : string) :
  find_duplicate name (_measurements_per_grid self) = None ->
  dict_get string_dec name
    match dict_get GeoBox_eq_dec key (_measurements_per_grid self) with
    | Some measurements => measurements
    | None => []
    end = None.
Proof.
  intros Hfresh.
  destruct (dict_get GeoBox_eq_dec key (_measurements_per_grid self))
    as [measurements|] eqn:Hbucket; trivial.
  apply dict_get_In in Hbucket. apply dict_get_None_keys.
  apply find_duplicate_None in Hfresh. intros Hin. apply Hfresh.
  apply in_flat_map. now exists (key, measurements).
Qed.

(** X4. The names of a registry stay pairwise distinct whatever sequence of
    [record_image] calls is made on it, successful or not; in particular the
    names of a registry filled from the empty one are pairwise distinct. *)
Theorem names_stay_distinct (calls : list call) (self : MeasurementBundler) :
  NoDup (iter_names self) ->
  NoDup (iter_names (run_calls calls self))
  /\ NoDup (iter_names (run_calls calls new_bundler)).
Proof.
  assert (Hstep : forall c registry,
             NoDup (iter_names registry) ->
             NoDup (iter_names (fst (run_call c registry)))).
  { intros c registry Hnodup. unfold iter_names, run_call.
    rewrite record_image_measurements.
    destruct (find_duplicate _ _) eqn:Hfresh; trivial.
    destruct (crs (call_grid c)) as [grid_crs|]; trivial.
    unfold written.
    rewrite (dict_set_fresh string_dec _ _ _
               (fresh_in_bucket registry _ _ Hfresh)).
    apply find_duplicate_None in Hfresh.
    destruct (dict_get GeoBox_eq_dec _ (_measurements_per_grid registry))
      as [measurements|] eqn:Hbucket.
    - destruct (dict_set_found GeoBox_eq_dec _
                  (measurements
                   ++ [(call_name c,
                        mk_location (call_path c) (call_layer c))])
                  _ _ Hbucket)
        as (before & after & Hsplit & _ & ->).
      unfold iter_names in Hnodup. rewrite Hsplit in *.
      rewrite flat_map_app in *. cbn [flat_map snd] in *.
      rewrite map_app. cbn [map fst].
      rewrite <- !app_assoc. cbn [app].
      rewrite app_assoc.
      apply (Permutation_NoDup
               (l := call_name c
                     :: (flat_map (fun gm => map fst (snd gm)) before
                         ++ map fst measurements)
                     ++ flat_map (fun gm => map fst (snd gm)) after)).
      + apply Permutation_middle.
      + constructor.
        * now rewrite <- app_assoc.
        * now rewrite <- app_assoc.
    - rewrite (dict_set_fresh GeoBox_eq_dec _ _ _ Hbucket).
      rewrite flat_map_app. cbn [flat_map snd map fst app].
      apply (Permutation_NoDup
               (l := call_name c
                     :: flat_map (fun gm => map fst (snd gm))
                          (_measurements_per_grid registry) ++ [])).
      + apply Permutation_middle.
      + rewrite app_nil_r. now constructor. }
  assert (Hall : forall registry,
             NoDup (iter_names registry) ->
             NoDup (iter_names (run_calls calls registry))).
  { induction calls as [|c calls IH]; intros registry Hnodup; trivial.
    apply IH, Hstep, Hnodup. }
  intros Hnodup. split; [now apply Hall|]. apply Hall. constructor.
Qed.

Lemma names_stay_distinct_witness :
  NoDup (iter_names nbar_nbart)
  /\ NoDup (iter_names (run_calls three_calls nbar_nbart)).
Proof.
  assert (Hnames : NoDup (iter_names nbar_nbart)).
  { change (iter_names nbar_nbart)
      with ["nbar_blue"; "nbar_red"; "nbart_blue"].
    repeat constructor; simpl; intuition discriminate. }
  split; [exact Hnames|].
  exact (proj1 (names_stay_distinct three_calls nbar_nbart Hnames)).
Defined.

(** Lookups in the measurements [record_image] writes: the new entry, and
    everything that was there. *)
Lemma written_lookup
    (self : MeasurementBundler) (key : GeoBox) (name : string)
    (location : _MeasurementLocation) :
  find_duplicate name (_measurements_per_grid self) = None ->
  forall key' name' location',
    (exists measurements,
        dict_get GeoBox_eq_dec key' (written self key name location)
        = Some measurements
        /\ dict_get string_dec name' measurements = Some location')
    <-> holds self key' name' location'
        \/ (key' = key /\ name' = name /\ location' = location).
Proof.
  intros Hfresh key' name' location'.
  unfold holds, written. rewrite dict_get_set.
  pose proof (fresh_in_bucket self key name Hfresh) as Hbucket.
  destruct (GeoBox_eq_dec key' key) as [->|Hkey].
  - set (bucket := match dict_get GeoBox_eq_dec key
                              (_measurements_per_grid self) with
                   | Some measurements => measurements
                   | None => []
                   end) in *.
    split.
    + intros (measurements & [= <-] & Hget).
      rewrite dict_get_set in Hget.
      destruct (string_dec name' name) as [->|Hname].
      * right. injection Hget as <-. auto.
      * left. subst bucket.
        destruct (dict_get GeoBox_eq_dec key (_measurements_per_grid self))
          as [measurements|]; [|discriminate].
        now exists measurements.
    + intros [(measurements & Hgrid & Hget)|(_ & -> & ->)].
      * eexists. split; [reflexivity|]. rewrite dict_get_set.
        subst bucket. rewrite Hgrid in *.
        destruct (string_dec name' name) as [->|Hname]; [congruence|trivial].
      * eexists. split; [reflexivity|]. apply dict_get_set_same.
  - split.
    + intros Hheld. now left.
    + intros [Hheld|(Heq & _)]; [trivial|contradiction].
Qed.

(** X5. A successful [record_image] is an insertion into the registry seen as
    a two-level dictionary: afterwards the grid key of the call holds the new
    name with the path and layer of the call, and every other lookup of a
    grid and a name gives what it gave before. *)
Theorem record_image_lookup
    (self : MeasurementBundler) (name : string) (grid : GeoBox) (path : string)
    (img : image) (layer : option string) (nodata : option pynum)
    (expand_valid_data : bool) (grid_crs : CRS) :
  crs grid = Some grid_crs ->
  snd (record_image name grid path img layer nodata expand_valid_data self)
  = Ok tt ->
  forall key name' location,
    holds (fst (record_image name grid path img layer nodata expand_valid_data
                  self)) key name' location
    <-> holds self key name' location
        \/ (key = with_epsg_crs grid grid_crs /\ name' = name
            /\ location = mk_location path layer).
Proof.
  intros Hcrs Hok key name' location.
  pose proof (record_image_ok_fresh _ _ _ _ _ _ _ _ Hok) as Hfresh.
  rewrite <- (written_lookup self _ _ _ Hfresh).
  unfold holds at 1. rewrite record_image_measurements, Hfresh, Hcrs.
  reflexivity.
Qed.

Lemma record_image_lookup_witness :
  crs GridB = Some utm55
  /\ snd (record_image "nbart_red" GridB "nbart_red.tif" (ones 4 4) None None
            true nbar_nbart) = Ok tt
  /\ forall key name' location,
       holds (fst (record_image "nbart_red" GridB "nbart_red.tif" (ones 4 4)
                     None None true nbar_nbart)) key name' location
       <-> holds nbar_nbart key name' location
           \/ (key = with_epsg_crs GridB utm55 /\ name' = "nbart_red"
               /\ location = mk_location "nbart_red.tif" None).
Proof.
  split; [reflexivity|]. split; [reflexivity|].
  exact (record_image_lookup nbar_nbart "nbart_red" GridB "nbart_red.tif"
           (ones 4 4) None None true utm55 eq_refl eq_refl).
Defined.

Lemma with_epsg_crs_canonical (grid : GeoBox) (grid_crs : CRS) :
  crs grid = Some grid_crs -> canonical (with_epsg_crs grid grid_crs).
Proof.
  intros Hcrs. unfold canonical, with_epsg_crs.
  destruct (epsg grid_crs) as [code|] eqn:Hepsg.
  - exists (CRS_of_epsg code). split; reflexivity.
  - exists grid_crs. split; [exact Hcrs|]. now rewrite Hepsg.
Qed.

(** X6. Every registry reached from the empty one by [record_image] calls,
    successful or not, has no empty bucket, has only canonical grid keys (a
    CRS that resolves to an EPSG code is stored as that code alone), and has
    a mask only for a grid that also has measurements. *)
Theorem registry_stays_well_filled
    (calls : list call) (self : MeasurementBundler) :
  filled_by_record self ->
  filled_by_record (run_calls calls self)
  /\ filled_by_record (run_calls calls new_bundler).
Proof.
  assert (Hstep : forall c registry,
             filled_by_record registry ->
             filled_by_record (fst (run_call c registry))).
  { intros c registry [Hbuckets Hmasks]. unfold run_call.
    assert (Hsame : forall after,
               _measurements_per_grid after = _measurements_per_grid registry ->
               mask_by_grid after = mask_by_grid registry ->
               filled_by_record after).
    { intros after Hm Hk. split; rewrite ?Hm, ?Hk; trivial. }
    unfold record_image.
    destruct (find_duplicate _ _) eqn:Hfresh; [now apply Hsame|].
    destruct (crs (call_grid c)) as [grid_crs|] eqn:Hcrs; [|now apply Hsame].
    set (key := with_epsg_crs (call_grid c) grid_crs).
    set (bucket := match dict_get GeoBox_eq_dec key
                              (_measurements_per_grid registry) with
                   | Some measurements => measurements
                   | None => []
                   end).
    set (location := mk_location (call_path c) (call_layer c)).
    assert (Hkey : canonical key) by now apply with_epsg_crs_canonical.
    assert (Hwritten : forall grid measurements,
               In (grid, measurements)
                 (dict_set GeoBox_eq_dec key
                    (dict_set string_dec (call_name c) location bucket)
                    (_measurements_per_grid registry)) ->
               measurements <> [] /\ canonical grid).
    { intros grid measurements Hin. apply In_dict_set in Hin.
      destruct Hin as [[= -> ->]|Hin]; [|now apply Hbuckets].
      split; [apply dict_set_not_nil|exact Hkey]. }
    assert (Hkept : forall grid mask,
               In (grid, mask) (mask_by_grid registry) ->
               canonical grid
               /\ exists measurements,
                    dict_get GeoBox_eq_dec grid
                      (dict_set GeoBox_eq_dec key
                         (dict_set string_dec (call_name c) location bucket)
                         (_measurements_per_grid registry))
                    = Some measurements).
    { intros grid mask Hin.
      destruct (Hmasks grid mask Hin) as [Hcan (measurements & Hget)].
      split; [exact Hcan|]. rewrite dict_get_set.
      destruct (GeoBox_eq_dec grid key); eauto. }
    assert (Hstored : forall new_mask grid mask,
               In (grid, mask)
                 (dict_set GeoBox_eq_dec key new_mask (mask_by_grid registry)) ->
               canonical grid
               /\ exists measurements,
                    dict_get GeoBox_eq_dec grid
                      (dict_set GeoBox_eq_dec key
                         (dict_set string_dec (call_name c) location bucket)
                         (_measurements_per_grid registry))
                    = Some measurements).
    { intros new_mask grid mask Hin. apply In_dict_set in Hin.
      destruct Hin as [[= -> ->]|Hin]; [|now apply (Hkept grid mask)].
      split; [exact Hkey|]. rewrite dict_get_set_same. eauto. }
    destruct (call_expand c); [|split; assumption].
    unfold _expand_valid_data_mask. cbv zeta. cbn [mask_by_grid].
    destruct (dict_get GeoBox_eq_dec key (mask_by_grid registry)) as [mask|].
    - destruct (inplace orb mask _) as [mask'|].
      + split; [exact Hwritten|apply Hstored].
      + split; assumption.
    - split; [exact Hwritten|apply Hstored]. }
  assert (Hall : forall registry,
             filled_by_record registry ->
             filled_by_record (run_calls calls registry)).
  { induction calls as [|c calls IH]; intros registry Hfilled; trivial.
    apply IH, Hstep, Hfilled. }
  intros Hfilled. split; [now apply Hall|]. apply Hall.
  split; intros grid x [].
Qed.

Lemma registry_stays_well_filled_witness :
  filled_by_record new_bundler
  /\ filled_by_record (run_calls three_calls new_bundler).
Proof.
  assert (Hnew : filled_by_record new_bundler) by (split; intros grid x []).
  split; [exact Hnew|].
  exact (proj1 (registry_stays_well_filled three_calls new_bundler Hnew)).
Defined.

(** X7. Grids of the same shape and transform whose CRSs are written
    differently but resolve to the same EPSG code are one grid to the
    registry: two successful calls on them leave both names in one bucket. *)
Theorem same_epsg_shares_bucket
    (self : MeasurementBundler) (c1 c2 : call) (crs1 crs2 : CRS) (code : Z) :
  crs (call_grid c1) = Some crs1 -> crs (call_grid c2) = Some crs2 ->
  epsg crs1 = Some code -> epsg crs2 = Some code ->
  shape (call_grid c1) = shape (call_grid c2) ->
  affine (call_grid c1) = affine (call_grid c2) ->
  snd (run_call c1 self) = Ok tt ->
  snd (run_call c2 (fst (run_call c1 self))) = Ok tt ->
  exists measurements,
    dict_get GeoBox_eq_dec
      (mk_GeoBox (shape (call_grid c1)) (affine (call_grid c1))
         (Some (CRS_of_epsg code)))
      (_measurements_per_grid (run_calls [c1; c2] self))
    = Some measurements
    /\ dict_get string_dec (call_name c1) measurements
       = Some (mk_location (call_path c1) (call_layer c1))
    /\ dict_get string_dec (call_name c2) measurements
       = Some (mk_location (call_path c2) (call_layer c2)).
Proof.
  intros Hcrs1 Hcrs2 Hepsg1 Hepsg2 Hshape Haffine Hok1 Hok2.
  unfold run_call in *.
  set (key := mk_GeoBox (shape (call_grid c1)) (affine (call_grid c1))
                (Some (CRS_of_epsg code))).
  assert (Hkey1 : with_epsg_crs (call_grid c1) crs1 = key)
    by (unfold with_epsg_crs; now rewrite Hepsg1).
  assert (Hkey2 : with_epsg_crs (call_grid c2) crs2 = key)
    by (unfold with_epsg_crs; now rewrite Hepsg2, <- Hshape, <- Haffine).
  pose proof (record_image_ok_fresh _ _ _ _ _ _ _ _ Hok1) as Hfresh1.
  pose proof (record_image_ok_fresh _ _ _ _ _ _ _ _ Hok2) as Hfresh2.
  cbn [run_calls fold_left]. unfold run_call.
  rewrite record_image_measurements, Hfresh2, Hcrs2, Hkey2.
  pose proof (written_lookup _ key (call_name c2)
                (mk_location (call_path c2) (call_layer c2)) Hfresh2)
    as Hafter2.
  assert (Hheld1 : holds (fst (record_image (call_name c1) (call_grid c1)
                                 (call_path c1) (call_img c1) (call_layer c1)
                                 (call_nodata c1) (call_expand c1) self))
                     key (call_name c1)
                     (mk_location (call_path c1) (call_layer c1))).
  { unfold holds. rewrite record_image_measurements, Hfresh1, Hcrs1, Hkey1.
    apply (written_lookup self key _ _ Hfresh1). right. auto. }
  destruct (proj2 (Hafter2 key (call_name c1)
                     (mk_location (call_path c1) (call_layer c1)))
              (or_introl Hheld1))
    as (measurements & Hget & Hname1).
  destruct (proj2 (Hafter2 key (call_name c2)
                     (mk_location (call_path c2) (call_layer c2)))
              (or_intror (conj eq_refl (conj eq_refl eq_refl))))
    as (measurements' & Hget' & Hname2).
  exists measurements. split; [exact Hget|]. split; [exact Hname1|].
  congruence.
Qed.

Lemma same_epsg_shares_bucket_witness :
  exists measurements,
    dict_get GeoBox_eq_dec GridA_key
      (_measurements_per_grid
         (run_calls [red_on_GridA; nir_on_GridA_named] new_bundler))
    = Some measurements
    /\ dict_get string_dec "red" measurements
       = Some (mk_location "red.tif" None)
    /\ dict_get string_dec "nir" measurements
       = Some (mk_location "nir.tif" None).
Proof.
  assert (Hok1 : snd (run_call red_on_GridA new_bundler) = Ok tt)
    by (vm_compute; reflexivity).
  assert (Hok2 : snd (run_call nir_on_GridA_named
                        (fst (run_call red_on_GridA new_bundler))) = Ok tt)
    by (vm_compute; reflexivity).
  exact (same_epsg_shares_bucket new_bundler red_on_GridA nir_on_GridA_named
           utm55 utm55_named 32655%Z eq_refl eq_refl eq_refl eq_refl eq_refl
           eq_refl Hok1 Hok2).
Defined.

(** ** More on naming *)

Section MoreSortingFacts.
Context {A : Type} (key : A -> nat).

Lemma insert_desc_perm (x : A) (l : list A) :
  Permutation (insert_desc key x l) (x :: l).
Proof.
  induction l as [|y l IH]; simpl; [reflexivity|].
  destruct (key x <? key y)%nat; [|reflexivity].
  rewrite IH. apply perm_swap.
Qed.

Lemma sorted_desc_perm (l : list A) : Permutation (sorted_desc key l) l.
Proof.
  induction l as [|x l IH]; simpl; [reflexivity|].
  rewrite insert_desc_perm. now constructor.
Qed.

Lemma insert_desc_sorted (x : A) (l : list A) :
  StronglySorted (fun a b => (key b <= key a)%nat) l ->
  StronglySorted (fun a b => (key b <= key a)%nat) (insert_desc key x l).
Proof.
  induction l as [|y l IH]; intros Hsorted; simpl.
  - repeat constructor.
  - inversion Hsorted as [|? ? Hrest Hall]; subst.
    destruct (key x <? key y)%nat eqn:Hlt.
    + apply Nat.ltb_lt in Hlt. constructor; [now apply IH|].
      apply Forall_forall. intros z Hz.
      apply (Permutation_in _ (insert_desc_perm x l)) in Hz.
      destruct Hz as [<-|Hz]; [lia|].
      now apply (proj1 (Forall_forall _ _) Hall).
    + apply Nat.ltb_ge in Hlt. constructor; [exact Hsorted|].
      constructor; [exact Hlt|].
      apply Forall_forall. intros z Hz.
      pose proof (proj1 (Forall_forall _ _) Hall z Hz) as Hzy.
      cbv beta in Hzy. lia.
Qed.

Lemma sorted_desc_sorted (l : list A) :
  StronglySorted (fun a b => (key b <= key a)%nat) (sorted_desc key l).
Proof.
  induction l as [|x l IH]; simpl; [constructor|].
  now apply insert_desc_sorted.
Qed.
End MoreSortingFacts.

Lemma grid_names_distinct : NoDup ("default" :: grid_names).
Proof.
  assert (Hfixed : nodup string_dec ("default" :: grid_names)
                   = "default" :: grid_names)
    by (vm_compute; reflexivity).
  rewrite <- Hfixed. apply NoDup_nodup.
Qed.

Lemma NoDup_firstn {A : Type} (n : nat) (l : list A) :
  NoDup l -> NoDup (firstn n l).
Proof.
  intros Hnodup. rewrite <- (firstn_skipn n l) in Hnodup.
  now apply NoDup_app_remove_r in Hnodup.
Qed.

Lemma In_firstn {A : Type} (n : nat) (l : list A) (x : A) :
  In x (firstn n l) -> In x l.
Proof.
  intros Hin. rewrite <- (firstn_skipn n l). apply in_or_app. now left.
Qed.

Lemma NoDup_snoc {A : Type} (l : list A) (x : A) :
  NoDup l -> ~ In x l -> NoDup (l ++ [x]).
Proof.
  intros Hnodup Hnot. apply NoDup_app; trivial.
  - repeat constructor. intros [].
  - intros a Hin [<-|[]]. contradiction.
Qed.

Lemma dict_mem_false_keys {V : Type} (k : string) (d : list (string * V)) :
  dict_mem string_dec k d = false <-> ~ In k (map fst d).
Proof.
  unfold dict_mem. rewrite <- (dict_get_None_keys string_dec).
  destruct (dict_get string_dec k d); split; intros Hx;
    try discriminate Hx; reflexivity.
Qed.

Section MoreNamingFacts.
Context `{OdcGeo}.

(** What the first loop returns keeps the names distinct and lists the grids
    in the order it met them. *)
Lemma name_by_measurements_shape all_names grids :
  forall named0 named,
    name_by_measurements all_names grids named0 = Some named ->
    (NoDup (map fst named0) -> NoDup (map fst named))
    /\ map snd named = map snd named0 ++ grids.
Proof.
  induction grids as [|[grid measurements] grids IH]; intros named0 named; simpl.
  - intros [= <-]. now rewrite app_nil_r.
  - destruct (if (List.length measurements =? 1)%nat then _ else _)
      as [grid_name|]; [|discriminate].
    destruct (dict_mem string_dec grid_name named0) eqn:Hmem; [discriminate|].
    intros Hrest. destruct (IH _ _ Hrest) as [Hnodup Hgrids]. split.
    + intros Hnamed0. apply Hnodup. rewrite map_app. cbn [map fst].
      apply NoDup_snoc; trivial. now apply dict_mem_false_keys.
    + rewrite Hgrids, map_app, <- app_assoc. reflexivity.
Qed.

(** The second loop works exactly when the names made from the pixel sizes
    are new and pairwise distinct, and then gives each grid that name. *)
Lemma name_by_resolution_spec grids :
  forall named0,
    NoDup (map fst named0) ->
    (NoDup (map fst named0 ++ map (fun gm => resolution_name (fst gm)) grids)
     -> name_by_resolution grids named0
        = Some (named0
                ++ map (fun gm => (resolution_name (fst gm), gm)) grids))
    /\ (forall named,
          name_by_resolution grids named0 = Some named ->
          NoDup (map fst named0
                 ++ map (fun gm => resolution_name (fst gm)) grids)).
Proof.
  induction grids as [|[grid measurements] grids IH]; intros named0 Hnamed0.
  - simpl. rewrite !app_nil_r. auto.
  - cbn [name_by_resolution map fst].
    assert (Hshift : map fst named0
                     ++ resolution_name grid
                        :: map (fun gm => resolution_name (fst gm)) grids
                     = map fst (named0
                                ++ [(resolution_name grid,
                                     (grid, measurements))])
                       ++ map (fun gm => resolution_name (fst gm)) grids)
      by (rewrite map_app, <- app_assoc; reflexivity).
    rewrite Hshift.
    destruct (dict_mem string_dec (resolution_name grid) named0) eqn:Hmem.
    + split; [|discriminate]. intros Hnodup. exfalso.
      apply NoDup_app_remove_r in Hnodup. rewrite map_app in Hnodup.
      apply NoDup_remove_2 in Hnodup. rewrite app_nil_r in Hnodup.
      cbn [fst] in Hnodup.
      apply (proj2 (dict_mem_false_keys _ _)) in Hnodup. congruence.
    + assert (Hnext : NoDup (map fst (named0
                                     ++ [(resolution_name grid,
                                          (grid, measurements))]))).
      { rewrite map_app. apply NoDup_snoc; trivial.
        now apply dict_mem_false_keys. }
      destruct (IH _ Hnext) as [Hyes Hno]. split.
      * intros Hnodup. rewrite (Hyes Hnodup), <- app_assoc. reflexivity.
      * exact Hno.
Qed.

(** Whichever stage names the grids, the names are distinct and the grids
    are those of the registry in the frequency order. *)
Lemma as_named_grids_cases (self : MeasurementBundler) (named : NamedGrids) :
  _as_named_grids self = Ok named ->
  NoDup (map fst named) /\ map snd named = grids_by_frequency self.
Proof.
  unfold _as_named_grids.
  destruct (grids_by_frequency self) as [|default_grid rest]; [discriminate|].
  assert (Hstart : NoDup (map fst [("default", default_grid)]))
    by (repeat constructor; intros []).
  destruct rest as [|other rest]; [now intros [= <-]|].
  destruct (name_by_measurements _ _ _) as [named1|] eqn:Hfirst.
  { intros [= <-].
    destruct (name_by_measurements_shape _ _ _ _ Hfirst) as [Hnodup Hgrids].
    split; [now apply Hnodup|exact Hgrids]. }
  destruct (name_by_resolution _ _) as [named2|] eqn:Hsecond.
  { intros [= <-].
    pose proof (proj2 (name_by_resolution_spec _ _ Hstart) _ Hsecond)
      as Hnodup.
    rewrite (proj1 (name_by_resolution_spec _ _ Hstart) Hnodup) in Hsecond.
    injection Hsecond as <-. set (others := other :: rest) in *.
    cbn [app map fst snd]. rewrite !map_map. cbn [fst snd].
    split; [exact Hnodup|now rewrite map_id]. }
  destruct (_ <? _)%nat eqn:Hlen; [discriminate|].
  apply Nat.ltb_ge in Hlen. intros [= <-]. split.
  - change (NoDup ("default"
                   :: map fst (combine grid_names (other :: rest)))).
    rewrite map_fst_combine.
    pose proof grid_names_distinct as Hletters.
    inversion Hletters as [|? ? Hnot Hnodup]; subst.
    constructor; [|now apply NoDup_firstn].
    intros Hin. apply Hnot. eapply In_firstn; eassumption.
  - change (default_grid :: map snd (combine grid_names (other :: rest))
            = default_grid :: other :: rest).
    now rewrite map_snd_combine.
Qed.

(** X8. [_as_named_grids] gives every grid of the registry one name, and
    the names are pairwise distinct, whichever of the three stages produced
    them. *)
Theorem named_grids_have_distinct_names
    (self : MeasurementBundler) (named : NamedGrids) :
  _as_named_grids self = Ok named ->
  NoDup (map fst named)
  /\ List.length named = List.length (_measurements_per_grid self).
Proof.
  intros Hnamed.
  destruct (as_named_grids_cases self named Hnamed) as [Hnodup Hgrids].
  split; [exact Hnodup|].
  rewrite <- (length_map snd named), Hgrids.
  apply Permutation_length, sorted_desc_perm.
Qed.

(** X9. The result of [_as_named_grids] lists the grids of the registry from
    most to fewest measurements: its values are the frequency order of the
    registry, a permutation of the registry sorted by falling measurement
    count. *)
Theorem named_grids_cover_the_registry
    (self : MeasurementBundler) (named : NamedGrids) :
  _as_named_grids self = Ok named ->
  map snd named = grids_by_frequency self
  /\ Permutation (map snd named) (_measurements_per_grid self)
  /\ StronglySorted
       (fun earlier later : GeoBox * _Measurements =>
          (List.length (snd later) <= List.length (snd earlier))%nat)
       (map snd named).
Proof.
  intros Hnamed.
  rewrite (proj2 (as_named_grids_cases self named Hnamed)).
  split; [reflexivity|]. split.
  - apply sorted_desc_perm.
  - apply (sorted_desc_sorted
             (fun k : GeoBox * _Measurements => List.length (snd k))).
Qed.

(** X10. [_as_named_grids] raises [IndexError] exactly on a registry without
    grids, and otherwise it can only raise the too-many-grids error, which
    takes more than 53 grids: with 1 to 53 grids it always returns. *)
Theorem as_named_grids_failures (self : MeasurementBundler) :
  (_as_named_grids self = Raise IndexError
   <-> _measurements_per_grid self = [])
  /\ (forall e,
        _as_named_grids self = Raise e ->
        e = IndexError
        \/ (e = TooManyGridsError 52
            /\ (53 < List.length (_measurements_per_grid self))%nat))
  /\ (_measurements_per_grid self <> [] ->
      (List.length (_measurements_per_grid self) <= 53)%nat ->
      exists named, _as_named_grids self = Ok named).
Proof.
  pose proof (Permutation_length
                (sorted_desc_perm
                   (fun k : GeoBox * _Measurements => List.length (snd k))
                   (_measurements_per_grid self))) as Hlen.
  fold (grids_by_frequency self) in Hlen.
  assert (Hcases :
            (grids_by_frequency self = []
             /\ _measurements_per_grid self = []
             /\ _as_named_grids self = Raise IndexError)
            \/ (_measurements_per_grid self <> []
                /\ ((exists named, _as_named_grids self = Ok named)
                    \/ (_as_named_grids self = Raise (TooManyGridsError 52)
                        /\ (53 < List.length (_measurements_per_grid self))%nat)))).
  { unfold _as_named_grids.
    destruct (grids_by_frequency self) as [|default_grid rest].
    - left. destruct (_measurements_per_grid self); [auto|discriminate].
    - right. split; [intros Hnil; rewrite Hnil in Hlen; discriminate|].
      destruct rest as [|other rest]; [left; eauto|].
      destruct (name_by_measurements _ _ _); [left; eauto|].
      destruct (name_by_resolution _ _); [left; eauto|].
      change (List.length grid_names) with 52%nat.
      destruct (_ <? _)%nat eqn:Hmany; [|left; eauto].
      right. apply Nat.ltb_lt in Hmany. split; trivial.
      rewrite <- Hlen. cbn [List.length] in *. lia. }
  destruct Hcases as [(_ & Hnil & Hraise)|(Hsome & [[named Hok]|[Hraise Hmany]])].
  - split; [tauto|]. split.
    + intros e He. left. congruence.
    + intros Hne. contradiction.
  - split; [split; [congruence|contradiction]|]. split.
    + intros e He. congruence.
    + eauto.
  - split; [split; [congruence|contradiction]|]. split.
    + intros e He. right. split; [congruence|exact Hmany].
    + intros _ Hle. lia.
Qed.

(** X11. When the names of the bands do not name the grids, the second stage
    decides by the pixel sizes alone: it names every other grid by
    [resolution_name] exactly when those names are pairwise distinct and none
    is ["default"], and it is given up otherwise. *)
Theorem resolution_stage_needs_distinct_sizes
    (self : MeasurementBundler) (default_grid : GeoBox * _Measurements)
    (rest : list (GeoBox * _Measurements)) :
  grids_by_frequency self = default_grid :: rest ->
  name_by_measurements (iter_names self) rest [("default", default_grid)]
  = None ->
  (NoDup ("default" :: map (fun gm => resolution_name (fst gm)) rest) ->
   _as_named_grids self
   = Ok (("default", default_grid)
         :: map (fun gm => (resolution_name (fst gm), gm)) rest))
  /\ (~ NoDup ("default" :: map (fun gm => resolution_name (fst gm)) rest) ->
      name_by_resolution rest [("default", default_grid)] = None).
Proof.
  intros Hsorted Hfirst.
  assert (Hstart : NoDup (map fst [("default", default_grid)]))
    by (repeat constructor; intros []).
  destruct (name_by_resolution_spec rest _ Hstart) as [Hyes Hno].
  cbn [map fst app] in Hyes, Hno. split.
  - intros Hnodup. unfold _as_named_grids. rewrite Hsorted.
    destruct rest as [|other rest]; [discriminate|].
    rewrite Hfirst, (Hyes Hnodup). reflexivity.
  - intros Hdup.
    destruct (name_by_resolution rest [("default", default_grid)])
      as [named|] eqn:Hsecond; trivial.
    exfalso. apply Hdup. now apply (Hno named).
Qed.
End MoreNamingFacts.

Lemma named_grids_have_distinct_names_witness :
  @_as_named_grids odc_geo two_sizes = Ok names_of_two_sizes
  /\ NoDup ["default"; "15"]
  /\ List.length names_of_two_sizes
     = List.length (_measurements_per_grid two_sizes).
Proof.
  assert (Hnamed : @_as_named_grids odc_geo two_sizes = Ok names_of_two_sizes)
    by (vm_compute; reflexivity).
  split; [exact Hnamed|].
  exact (@named_grids_have_distinct_names odc_geo two_sizes names_of_two_sizes
           Hnamed).
Defined.

Lemma named_grids_cover_the_registry_witness :
  @_as_named_grids odc_geo nbar_nbart
  = Ok [("default",
         (GridA_key, [("nbar_blue", mk_location "nbar_blue.tif" None);
                      ("nbar_red", mk_location "nbar_red.tif" None)]));
        ("nbart_blue",
         (GridB_key, [("nbart_blue", mk_location "nbart_blue.tif" None)]))]
  /\ Permutation
       [(GridA_key, [("nbar_blue", mk_location "nbar_blue.tif" None);
                     ("nbar_red", mk_location "nbar_red.tif" None)]);
        (GridB_key, [("nbart_blue", mk_location "nbart_blue.tif" None)])]
       (_measurements_per_grid nbar_nbart).
Proof.
  assert (Hnamed :
            @_as_named_grids odc_geo nbar_nbart
            = Ok [("default",
                   (GridA_key,
                    [("nbar_blue", mk_location "nbar_blue.tif" None);
                     ("nbar_red", mk_location "nbar_red.tif" None)]));
                  ("nbart_blue",
                   (GridB_key,
                    [("nbart_blue", mk_location "nbart_blue.tif" None)]))])
    by (vm_compute; reflexivity).
  split; [exact Hnamed|].
  exact (proj1 (proj2 (@named_grids_cover_the_registry odc_geo nbar_nbart _
                         Hnamed))).
Defined.

Lemma resolution_stage_needs_distinct_sizes_witness :
  grids_by_frequency two_sizes = [GridA_of_two_sizes; GridB_of_two_sizes]
  /\ name_by_measurements (iter_names two_sizes) [GridB_of_two_sizes]
       [("default", GridA_of_two_sizes)] = None
  /\ @resolution_name odc_geo GridB_key = "15"
  /\ @_as_named_grids odc_geo two_sizes = Ok names_of_two_sizes.
Proof.
  assert (Hsorted : grids_by_frequency two_sizes
                    = [GridA_of_two_sizes; GridB_of_two_sizes])
    by (vm_compute; reflexivity).
  assert (Hfirst : name_by_measurements (iter_names two_sizes)
                     [GridB_of_two_sizes] [("default", GridA_of_two_sizes)]
                   = None)
    by (vm_compute; reflexivity).
  assert (Hname : @resolution_name odc_geo GridB_key = "15")
    by (vm_compute; reflexivity).
  assert (Hnodup : NoDup ("default"
                          :: map (fun gm : GeoBox * _Measurements =>
                                    @resolution_name odc_geo (fst gm))
                               [GridB_of_two_sizes])).
  { cbn [map fst GridB_of_two_sizes]. rewrite Hname.
    constructor; [|repeat constructor; intros []].
    intros [Hsame|[]]. discriminate Hsame. }
  split; [exact Hsorted|]. split; [exact Hfirst|]. split; [exact Hname|].
  pose proof (proj1 (@resolution_stage_needs_distinct_sizes odc_geo two_sizes
                       GridA_of_two_sizes [GridB_of_two_sizes] Hsorted Hfirst)
                Hnodup) as Hnamed.
  cbn [map fst GridB_of_two_sizes] in Hnamed. rewrite Hname in Hnamed.
  exact Hnamed.
Defined.

(** ** The valid-data mask of the stretch *)

Lemma inplace_andb_item (mask arr mask' : ndarray bool) :
  inplace andb mask arr = Some mask' ->
  arr_shape mask' = arr_shape mask
  /\ (forall i j, item mask' i j = true -> item mask i j = true)
  /\ (arr_shape arr = arr_shape mask ->
      forall i j, item mask' i j = item mask i j && item arr i j).
Proof.
  unfold inplace.
  destruct (broadcast_to (arr_shape mask) arr) as [arr'|] eqn:Hcast;
    [|discriminate].
  intros [= <-]. cbn [arr_shape item]. split; [reflexivity|]. split.
  - intros i j Htrue. now apply andb_prop in Htrue.
  - intros Hshape i j.
    destruct (broadcast_to_same arr) as (arr'' & Hcast' & _ & Hitem).
    rewrite Hshape, Hcast in Hcast'. injection Hcast' as <-.
    now rewrite Hitem.
Qed.

Lemma read_band_mask
    (calculate_percentiles : option (Z * Z)) (mask mask' : ndarray bool)
    (range range' : pynum * pynum) (array : ndarray pynum)
    (nodata : option pynum) :
  read_band calculate_percentiles mask range array nodata = Ok (mask', range') ->
  arr_shape mask' = arr_shape mask
  /\ (forall i j, item mask' i j = true -> item mask i j = true)
  /\ (arr_shape array = arr_shape mask ->
      forall i j, item mask' i j = true ->
                  differs nodata (item array i j) = true)
  /\ (calculate_percentiles = None -> range' = range).
Proof.
  unfold read_band.
  destruct (inplace andb mask (arr_map (differs nodata) array)) as [mask1|]
    eqn:Hand; [|discriminate].
  destruct (inplace_andb_item _ _ _ Hand) as (Hshape & Hkeeps & Hitem).
  assert (Hvalid : arr_shape array = arr_shape mask ->
                   forall i j, item mask1 i j = true ->
                               differs nodata (item array i j) = true).
  { intros Harray i j. rewrite (Hitem Harray i j). intros Htrue.
    now apply andb_prop in Htrue. }
  destruct calculate_percentiles as [[q_low q_high]|].
  - destruct (shape_eqb _ _); [|discriminate].
    destruct (any_nonzero _); intros [= <- <-]; repeat split; trivial;
      discriminate.
  - intros [= <- <-]. repeat split; trivial.
Qed.

(** X12. Whatever the bands and whether or not percentiles are asked for,
    when [read_valid_mask_and_value_range] returns, the mask it leaves has
    the shape of the mask it was given and is true only where that mask was
    true and, for every band of that shape, where the pixel differs from the
    nodata of the band: the mask only loses pixels.  Without percentiles the
    range is the widest integer range untouched. *)
Theorem valid_mask_only_shrinks
    (valid_data_mask mask : ndarray bool) (images : LazyImages)
    (calculate_percentiles : option (Z * Z)) (range : pynum * pynum) :
  read_valid_mask_and_value_range valid_data_mask images calculate_percentiles
  = Ok (mask, range) ->
  arr_shape mask = arr_shape valid_data_mask
  /\ (forall i j, item mask i j = true -> item valid_data_mask i j = true)
  /\ (forall array nodata,
        In (array, nodata) images ->
        arr_shape array = arr_shape valid_data_mask ->
        forall i j, item mask i j = true ->
                    differs nodata (item array i j) = true)
  /\ (calculate_percentiles = None ->
      range = (Int (- sys_maxsize - 1), Int sys_maxsize)).
Proof.
  unfold read_valid_mask_and_value_range.
  generalize (Int (- sys_maxsize - 1), Int sys_maxsize) as range0.
  revert valid_data_mask.
  induction images as [|[array nodata] images IH]; intros mask0 range0.
  - intros [= <- <-]. repeat split; trivial. intros array nodata [].
  - cbn [read_bands].
    destruct (read_band calculate_percentiles mask0 range0 array nodata)
      as [[mask1 range1]|err] eqn:Hband; [|discriminate].
    destruct (read_band_mask _ _ _ _ _ _ _ Hband)
      as (Hshape1 & Hkeeps1 & Hvalid1 & Hrange1).
    intros Hrest.
    destruct (IH _ _ Hrest) as (Hshape & Hkeeps & Hvalid & Hrange).
    split; [congruence|]. split; [auto|]. split.
    + intros array' nodata' [[= -> ->]|Hin] Harray i j Htrue.
      * apply (Hvalid1 Harray). now apply Hkeeps.
      * apply (Hvalid array' nodata' Hin); [congruence|exact Htrue].
    + intros Hnone. rewrite (Hrange Hnone). now apply Hrange1.
Qed.

Lemma valid_mask_only_shrinks_witness :
  (exists mask,
      read_valid_mask_and_value_range (all_true (1, 2)%nat) two_bands
        (Some (2, 98)%Z)
      = Ok (mask, (Int 7, Int 7))
      /\ arr_shape mask = arr_shape (all_true (1, 2)%nat)
      /\ (forall i j, item mask i j = true ->
                      item (all_true (1, 2)%nat) i j = true)
      /\ forall array nodata,
           In (array, nodata) two_bands ->
           arr_shape array = arr_shape (all_true (1, 2)%nat) ->
           forall i j, item mask i j = true ->
                       differs nodata (item array i j) = true).
Proof.
  eexists. split; [vm_compute; reflexivity|].
  match goal with
  | |- arr_shape ?m = _ /\ _ =>
      pose proof (valid_mask_only_shrinks (all_true (1, 2)%nat) m two_bands
                    (Some (2, 98)%Z) (Int 7, Int 7)) as Hthm
  end.
  destruct Hthm as (Hshape & Hkeeps & Hvalid & _); [vm_compute; reflexivity|].
  split; [exact Hshape|]. split; [exact Hkeeps|exact Hvalid].
Defined.

(** ** Single-band thumbnails *)


Lemma filter_bit_mode (data : ndarray Z) (bit : Z) :
  exists band,
    _filter_singleband_data data (Some bit) None
    = inr (OneArray band, (0, bit)%Z)
    /\ arr_shape band = arr_shape data
    /\ forall i j,
         item band i j = if (item data i j =? bit)%Z then bit else 0%Z.
Proof.
  eexists. split; [reflexivity|]. split; [reflexivity|].
  intros i j. cbn [item].
  destruct (item data i j =? bit)%Z eqn:Hbit; cbn [negb]; trivial.
  now apply Z.eqb_eq in Hbit.
Qed.



(** The water/cloud table of the tests, cut to three entries, on a row of
    pixels: an unlisted value comes out black. *)
Example lookup_table_paints :
  let data := of_rows 0%Z [[128; 7; 64; 0]]%Z in
  let table := [(0, (150, 150, 110)); (64, (216, 215, 214));
                (128, (79, 129, 189))]%Z in
  map (colour_of table) (cells data)
  = [(79, 129, 189); (0, 0, 0); (216, 215, 214); (150, 150, 110)]%Z.
Proof. reflexivity. Qed.


(** ** Naming a group of bands *)

Section StringOrder.
Lemma ascii_compare_refl (c : ascii) : Ascii.compare c c = Eq.
Proof. unfold Ascii.compare. apply N.compare_refl. Qed.

Lemma ascii_compare_lt_trans (a b c : ascii) :
  Ascii.compare a b = Lt -> Ascii.compare b c = Lt -> Ascii.compare a c = Lt.
Proof.
  unfold Ascii.compare. rewrite !N.compare_lt_iff. apply N.lt_trans.
Qed.

Lemma string_compare_lt_trans (a b c : string) :
  String.compare a b = Lt -> String.compare b c = Lt ->
  String.compare a c = Lt.
Proof.
  revert b c. induction a as [|x a IH]; intros [|y b] [|z c]; cbn;
    try discriminate; trivial.
  destruct (Ascii.compare x y) eqn:Hxy; try discriminate.
  - apply Ascii.compare_eq_iff in Hxy as ->.
    destruct (Ascii.compare y z); try discriminate; trivial. apply IH.
  - intros _. destruct (Ascii.compare y z) eqn:Hyz; try discriminate.
    + apply Ascii.compare_eq_iff in Hyz as <-. now rewrite Hxy.
    + intros _. now rewrite (ascii_compare_lt_trans _ _ _ Hxy Hyz).
Qed.

Lemma str_le_refl (a : string) : str_le a a.
Proof.
  unfold str_le, String.ltb.
  induction a as [|x a IH]; cbn; trivial. now rewrite ascii_compare_refl.
Qed.

Lemma str_le_trans (a b c : string) : str_le a b -> str_le b c -> str_le a c.
Proof.
  unfold str_le, String.ltb. intros Hab Hbc.
  destruct (String.compare c a) eqn:Hca; trivial. exfalso.
  destruct (String.compare a b) eqn:Hcab.
  - apply String.compare_eq_iff in Hcab as <-. now rewrite Hca in Hbc.
  - now rewrite (string_compare_lt_trans _ _ _ Hca Hcab) in Hbc.
  - rewrite String.compare_antisym, Hcab in Hab. discriminate.
Qed.

Lemma str_lt_le (a b : string) : String.ltb a b = true -> str_le a b.
Proof.
  unfold str_le, String.ltb. rewrite (String.compare_antisym a b).
  now destruct (String.compare b a).
Qed.

Lemma str_min_le_seed (m : list string) (seed : string) :
  str_le (str_min seed m) seed.
Proof.
  revert seed. induction m as [|s m IH]; intros seed; cbn.
  - apply str_le_refl.
  - destruct (String.ltb s seed) eqn:Hlt; [|apply IH].
    eapply str_le_trans; [apply IH|now apply str_lt_le].
Qed.

Lemma str_min_le (m : list string) (seed x : string) :
  In x (seed :: m) -> str_le (str_min seed m) x.
Proof.
  revert seed x. induction m as [|s m IH]; intros seed x.
  - intros [<-|[]]. apply str_le_refl.
  - intros [<-|[<-|Hin]]; cbn.
    + destruct (String.ltb s seed) eqn:Hlt; [|apply str_min_le_seed].
      eapply str_le_trans; [apply str_min_le_seed|now apply str_lt_le].
    + destruct (String.ltb s seed) eqn:Hlt; [apply str_min_le_seed|].
      eapply str_le_trans; [apply str_min_le_seed|exact Hlt].
    + apply IH. now right.
Qed.

Lemma str_max_ge_seed (m : list string) (seed : string) :
  str_le seed (str_max seed m).
Proof.
  revert seed. induction m as [|s m IH]; intros seed; cbn.
  - apply str_le_refl.
  - destruct (String.ltb seed s) eqn:Hlt; [|apply IH].
    apply (str_le_trans _ s); [now apply str_lt_le|apply IH].
Qed.

Lemma str_max_ge (m : list string) (seed x : string) :
  In x (seed :: m) -> str_le x (str_max seed m).
Proof.
  revert seed x. induction m as [|s m IH]; intros seed x.
  - intros [<-|[]]. apply str_le_refl.
  - intros [<-|[<-|Hin]]; cbn.
    + destruct (String.ltb seed s) eqn:Hlt; [|apply str_max_ge_seed].
      apply (str_le_trans _ s); [now apply str_lt_le|apply str_max_ge_seed].
    + destruct (String.ltb seed s) eqn:Hlt; [apply str_max_ge_seed|].
      apply (str_le_trans _ seed); [exact Hlt|apply str_max_ge_seed].
    + apply IH. now right.
Qed.

(** What [os.path.commonprefix] relies on: a string between two others in
    the order begins with what those two have in common. *)
Lemma agree_prefix_between (lo hi x : string) :
  str_le lo x -> str_le x hi -> String.prefix (agree_prefix lo hi) x = true.
Proof.
  unfold str_le, String.ltb.
  revert hi x. induction lo as [|a lo IH]; intros hi x Hlo Hhi; cbn.
  - now destruct x.
  - destruct hi as [|b hi]; [now destruct x|].
    destruct (Ascii.eqb a b) eqn:Hab; [|now destruct x].
    apply Ascii.eqb_eq in Hab as <-.
    destruct x as [|c x]; [discriminate Hlo|].
    cbn in Hlo, Hhi. rewrite (Ascii.compare_antisym a c) in Hhi.
    destruct (Ascii.compare c a) eqn:Hca; try discriminate.
    apply Ascii.compare_eq_iff in Hca as ->.
    cbn. destruct (ascii_dec a a) as [_|Hne]; [|contradiction].
    now apply IH.
Qed.
End StringOrder.

Lemma commonprefix_startswith (m : list string) (x : string) :
  In x m -> startswith x (commonprefix m) = true.
Proof.
  destruct m as [|s rest]; [intros []|]. intros Hin.
  apply agree_prefix_between; [now apply str_min_le|now apply str_max_ge].
Qed.

Section StringFacts.
Lemma prefix_app (p x : string) :
  String.prefix p x = true -> exists rest, x = (p ++ rest)%string.
Proof.
  revert x. induction p as [|a p IH]; intros [|b x]; cbn;
    try (intros Hprefix; discriminate Hprefix).
  - now exists "".
  - now exists (String b x).
  - destruct (ascii_dec a b) as [<-|];
      [|intros Hprefix; discriminate Hprefix].
    intros Hprefix. destruct (IH _ Hprefix) as [rest ->]. now exists rest.
Qed.

Lemma list_ascii_of_string_app (a b : string) :
  list_ascii_of_string (a ++ b)%string
  = (list_ascii_of_string a ++ list_ascii_of_string b)%list.
Proof. induction a as [|c a IH]; cbn; [trivial|now rewrite IH]. Qed.

Lemma string_of_list_ascii_app (a b : list ascii) :
  string_of_list_ascii (a ++ b)%list
  = (string_of_list_ascii a ++ string_of_list_ascii b)%string.
Proof. induction a as [|c a IH]; cbn; [trivial|now rewrite IH]. Qed.

Lemma str_rev_app (a b : string) :
  str_rev (a ++ b)%string = (str_rev b ++ str_rev a)%string.
Proof.
  unfold str_rev.
  now rewrite list_ascii_of_string_app, rev_app_distr, string_of_list_ascii_app.
Qed.

Lemma str_rev_involutive (s : string) : str_rev (str_rev s) = s.
Proof.
  unfold str_rev.
  now rewrite list_ascii_of_string_of_list_ascii, rev_involutive,
    string_of_list_ascii_of_string.
Qed.

Lemma str_rev_chars (s : string) (c : ascii) :
  In c (list_ascii_of_string (str_rev s)) <-> In c (list_ascii_of_string s).
Proof.
  unfold str_rev. rewrite list_ascii_of_string_of_list_ascii.
  symmetry. apply in_rev.
Qed.

Lemma append_assoc (a b c : string) :
  ((a ++ b) ++ c = a ++ b ++ c)%string.
Proof. induction a as [|x a IH]; cbn; [trivial|now rewrite IH]. Qed.

Lemma endswith_app (x suf : string) :
  endswith x suf = true -> exists rest, x = (rest ++ suf)%string.
Proof.
  unfold endswith. intros Hprefix.
  destruct (prefix_app _ _ Hprefix) as [rest Hrest].
  exists (str_rev rest).
  rewrite <- (str_rev_involutive x), Hrest, str_rev_app.
  now rewrite str_rev_involutive.
Qed.

Lemma common_suffix_endswith (m : list string) (x : string) :
  In x m -> endswith x (_common_suffix m) = true.
Proof.
  intros Hin. unfold endswith, _common_suffix. rewrite str_rev_involutive.
  apply commonprefix_startswith. now apply in_map.
Qed.

Variable chars : list ascii.

Lemma lstrip_split (s : string) :
  exists lead,
    s = (lead ++ lstrip chars s)%string
    /\ forall c, In c (list_ascii_of_string lead) -> In c chars.
Proof.
  induction s as [|a s (lead & Hsplit & Hlead)]; cbn.
  - now exists "".
  - destruct (existsb (Ascii.eqb a) chars) eqn:Hstrip.
    + exists (String a lead). split; [cbn; f_equal; exact Hsplit|].
      intros c [<-|Hin]; [|now apply Hlead].
      apply existsb_exists in Hstrip as (c & Hc & Heq).
      now apply Ascii.eqb_eq in Heq as ->.
    + now exists "".
Qed.

Lemma lstrip_head (s rest : string) (c : ascii) :
  lstrip chars s = String c rest -> ~ In c chars.
Proof.
  induction s as [|a s IH]; cbn; [discriminate|].
  destruct (existsb (Ascii.eqb a) chars) eqn:Hstrip; [exact IH|].
  intros [= -> _] Hin. apply Bool.not_true_iff_false in Hstrip.
  apply Hstrip, existsb_exists. exists c. split; [exact Hin|].
  apply Ascii.eqb_refl.
Qed.

Lemma strip_split (s : string) :
  exists lead trail,
    s = (lead ++ strip chars s ++ trail)%string
    /\ (forall c, In c (list_ascii_of_string lead) -> In c chars)
    /\ (forall c, In c (list_ascii_of_string trail) -> In c chars).
Proof.
  unfold strip.
  destruct (lstrip_split s) as (lead & Hs & Hlead).
  destruct (lstrip_split (str_rev (lstrip chars s))) as (back & Ht & Hback).
  exists lead, (str_rev back). split; [|split; [exact Hlead|]].
  - rewrite <- str_rev_app, <- Ht, str_rev_involutive. exact Hs.
  - intros c Hin. now apply Hback, str_rev_chars.
Qed.

Lemma strip_clean (s : string) (c : ascii) :
  In c chars ->
  startswith (strip chars s) (String c "") = false
  /\ endswith (strip chars s) (String c "") = false.
Proof.
  intros Hc. unfold strip, startswith, endswith.
  destruct (lstrip_split (str_rev (lstrip chars s))) as (back & Ht & _).
  set (t := lstrip chars s) in *.
  set (u := lstrip chars (str_rev t)) in *.
  split.
  - assert (Hfront : t = (str_rev u ++ str_rev back)%string)
      by now rewrite <- str_rev_app, <- Ht, str_rev_involutive.
    destruct (str_rev u) as [|d r] eqn:Hu; [reflexivity|].
    cbn. destruct (ascii_dec c d) as [<-|]; [|reflexivity].
    exfalso. cbn in Hfront.
    now apply (lstrip_head s (r ++ str_rev back)%string c).
  - rewrite str_rev_involutive.
    destruct u as [|d r] eqn:Hu; [reflexivity|].
    change (str_rev (String c "")) with (String c "").
    cbn. destruct (ascii_dec c d) as [<-|]; [|reflexivity].
    exfalso. now apply (lstrip_head (str_rev t) r c).
Qed.
End StringFacts.

(** X15. A name [_find_a_common_name] returns is never empty, neither begins
    nor ends with an underscore or a colon, and is part of every name of the
    group: either every name begins with it, after the same run of
    underscores and colons, or every name ends with it, before the same run
    of them. *)
Theorem common_name_is_shared_and_clean
    (group_of_names : list string) (all_possible_names : option (list string))
    (name : string) :
  _find_a_common_name group_of_names all_possible_names = Some name ->
  name <> ""
  /\ (forall c, In c ["_"; ":"]%char ->
        startswith name (String c "") = false
        /\ endswith name (String c "") = false)
  /\ ((exists lead,
          (forall c, In c (list_ascii_of_string lead) ->
                     In c ["_"; ":"]%char)
          /\ forall member, In member group_of_names ->
               exists after, member = (lead ++ name ++ after)%string)
      \/ (exists trail,
             (forall c, In c (list_ascii_of_string trail) ->
                        In c ["_"; ":"]%char)
             /\ forall member, In member group_of_names ->
                  exists before, member = (before ++ name ++ trail)%string)).
Proof.
  unfold _find_a_common_name.
  set (non_group_names := filter _ _).
  set (pre := commonprefix group_of_names).
  set (suf := _common_suffix group_of_names).
  set (options := if existsb (fun n => endswith n suf) non_group_names
                  then _ else _).
  intros Hfound.
  assert (Hoptions : forall option, In option options ->
                                    option = pre \/ option = suf).
  { subst options. intros option.
    destruct (existsb (fun n => endswith n suf) non_group_names),
      (existsb (fun n => startswith n pre) non_group_names); cbn;
      intuition auto. }
  assert (Hbest : name <> ""
                  /\ In name (map (strip ["_"; ":"]%char) options)).
  { destruct options as [|first more]; [discriminate|].
    pose proof (sorted_desc_perm String.length
                  (map (strip ["_"; ":"]%char) (first :: more))) as Hperm.
    destruct (sorted_desc String.length _) as [|best sorted];
      [discriminate|].
    destruct best as [|c best]; [discriminate|]. injection Hfound as <-.
    split; [discriminate|].
    eapply Permutation_in; [exact Hperm|now left]. }
  destruct Hbest as [Hnonempty Hin].
  apply in_map_iff in Hin as (option & <- & Hin).
  split; [exact Hnonempty|]. split; [intros c; apply strip_clean|].
  destruct (strip_split ["_"; ":"]%char option)
    as (lead & trail & Hsplit & Hlead & Htrail).
  destruct (Hoptions _ Hin) as [->| ->].
  - left. exists lead. split; [exact Hlead|]. intros member Hmember.
    destruct (prefix_app _ _ (commonprefix_startswith _ _ Hmember))
      as [rest ->].
    exists (trail ++ rest)%string. fold pre.
    rewrite Hsplit at 1. now rewrite !append_assoc.
  - right. exists trail. split; [exact Htrail|]. intros member Hmember.
    destruct (endswith_app _ _ (common_suffix_endswith _ _ Hmember))
      as [rest ->].
    exists (rest ++ lead)%string. fold suf.
    rewrite Hsplit at 1. now rewrite !append_assoc.
Qed.

Lemma common_name_is_shared_and_clean_witness :
  _find_a_common_name ["nbar_band08"; "nbart_band08"] None = Some "band08"
  /\ exists trail,
       (forall c, In c (list_ascii_of_string trail) -> In c ["_"; ":"]%char)
       /\ forall member, In member ["nbar_band08"; "nbart_band08"] ->
            exists before, member = (before ++ "band08" ++ trail)%string.
Proof.
  assert (Hname : _find_a_common_name ["nbar_band08"; "nbart_band08"] None
                  = Some "band08") by (vm_compute; reflexivity).
  split; [exact Hname|].
  destruct (proj2 (proj2 (common_name_is_shared_and_clean _ _ _ Hname)))
    as [(lead & Hchars & Hlead)|Hend]; [|exact Hend].
  exfalso. destruct (Hlead "nbar_band08" (or_introl eq_refl)) as [after Heq].
  destruct lead as [|c lead]; [discriminate Heq|].
  injection Heq as <- _.
  destruct (Hchars "n"%char (or_introl eq_refl)) as [Hc|[Hc|[]]];
    discriminate Hc.
Defined.

(** ** Rescaling intensities *)

Section RationalFacts.
Lemma Qc_of_Z_le (a b : Z) : (a <= b)%Z -> (Qc_of_Z a <= Qc_of_Z b)%Qc.
Proof.
  intros Hle. unfold Qc_of_Z, Qcle. cbn [this Q2Qc].
  rewrite !Qred_correct. now rewrite <- Zle_Qle.
Qed.

Lemma Qc_of_Z_add (a b : Z) :
  Qc_of_Z (a + b) = (Qc_of_Z a + Qc_of_Z b)%Qc.
Proof.
  unfold Qc_of_Z. apply Qc_is_canon. cbn [this Q2Qc Qcplus].
  rewrite !Qred_correct. now rewrite inject_Z_plus.
Qed.

Lemma Qfloor_Qc_of_Z (z : Z) : Qfloor (Qc_of_Z z) = z.
Proof.
  unfold Qc_of_Z. cbn [this Q2Qc].
  rewrite (Qfloor_comp _ _ (Qred_correct (inject_Z z))). apply Qfloor_Z.
Qed.

Lemma int_of_float_floor (y : Qc) :
  (Q2Qc 0 <= y)%Qc -> int_of_float y = Qfloor y.
Proof.
  unfold int_of_float, Qcle, Qle. destruct y as [[num den] Hcanon].
  cbn. intros Hnum. apply Z.quot_div_nonneg; lia.
Qed.

Lemma stretch_bounds (n d w : Qc) :
  (Q2Qc 0 < d)%Qc -> (Q2Qc 0 <= n)%Qc -> (n <= d)%Qc -> (Q2Qc 0 <= w)%Qc ->
  (Q2Qc 0 <= n / d * w)%Qc /\ (n / d * w <= w)%Qc.
Proof.
  intros Hd Hn Hnd Hw.
  assert (Hd' : d <> Q2Qc 0) by (intros ->; now apply (Qclt_not_eq _ _ Hd)).
  assert (Hlow : (Q2Qc 0 <= n / d)%Qc).
  { apply (Qcmult_lt_0_le_reg_r _ _ d Hd).
    replace (Q2Qc 0 * d)%Qc with (Q2Qc 0) by ring.
    replace (n / d * d)%Qc with n by (field; exact Hd'). exact Hn. }
  assert (Hhigh : (n / d <= 1)%Qc).
  { apply (Qcmult_lt_0_le_reg_r _ _ d Hd).
    replace (1 * d)%Qc with d by ring.
    replace (n / d * d)%Qc with n by (field; exact Hd'). exact Hnd. }
  split.
  - replace (Q2Qc 0) with (Q2Qc 0 * w)%Qc by ring.
    now apply Qcmult_le_compat_r.
  - replace w with (1 * w)%Qc at 2 by ring.
    now apply Qcmult_le_compat_r.
Qed.

End RationalFacts.

Ltac qc_order :=
  unfold Qcle, Qclt in *;
  repeat match goal with
         | H : negb _ = false |- _ => apply Bool.negb_false_iff in H
         | H : negb _ = true |- _ => apply Bool.negb_true_iff in H
         | H : Qle_bool _ _ = true |- _ => apply Qle_bool_iff in H
         | H : Qle_bool _ _ = false |- _ =>
             apply Bool.not_true_iff_false in H; rewrite Qle_bool_iff in H
         end;
  lra.

Ltac clip_case c :=
  exists c; repeat split; trivial; try qc_order;
  let Hle := fresh "Hle" in
  intros Hle; try discriminate Hle;
  first [exfalso; qc_order | apply Qcle_antisym; qc_order].

Section ClipFacts.
Variables imin imax : Qc.
Hypothesis Hin : (imin < imax)%Qc.

Lemma clip_value (px : pynum) :
  isnan px = false ->
  exists c,
    np_clip px (Num imin) (Num imax) = Num c
    /\ (imin <= c)%Qc /\ (c <= imax)%Qc
    /\ (num_ltb (Num imin) px = false -> c = imin)
    /\ (num_ltb px (Num imax) = false -> c = imax).
Proof.
  unfold np_clip, np_maximum, np_minimum.
  destruct px as [v| | |]; [| | |discriminate]; intros _; cbn.
  - destruct (Qle_bool imin v) eqn:Hlow; cbn.
    + destruct (Qle_bool imax v) eqn:Hhigh; cbn;
        [clip_case imax|clip_case v].
    + destruct (Qle_bool imax imin) eqn:Hhigh; cbn;
        [exfalso; qc_order|clip_case imin].
  - destruct (Qle_bool imax imin) eqn:Hhigh; cbn; clip_case imax.
  - destruct (Qle_bool imax imin) eqn:Hhigh; cbn;
      [exfalso; qc_order|clip_case imin].
Qed.

End ClipFacts.

Section CastFacts.
Variable unportable_cast : pynum -> Z.
Variables omin omax : Z.
Hypothesis Hout : (0 <= omin <= omax)%Z /\ (omax <= 255)%Z.

Lemma cast_in_range (y : Qc) :
  (Qc_of_Z omin <= y)%Qc -> (y <= Qc_of_Z omax)%Qc ->
  float_to_uint8 unportable_cast (Num y) = Qfloor y
  /\ (omin <= Qfloor y <= omax)%Z.
Proof.
  intros Hlow Hhigh.
  assert (Hzero : (Q2Qc 0 <= y)%Qc).
  { eapply Qcle_trans; [|exact Hlow]. apply (Qc_of_Z_le 0). lia. }
  assert (Hbyte : (y <= Qc_of_Z 255)%Qc).
  { eapply Qcle_trans; [exact Hhigh|]. apply Qc_of_Z_le. lia. }
  split.
  - unfold float_to_uint8.
    destruct (Qle_bool y (-1)) eqn:Hneg.
    { exfalso. unfold Qcle in Hzero. cbn in Hzero. qc_order. }
    destruct (Qle_bool 256 y) eqn:Hbig.
    { exfalso. unfold Qcle in Hbyte. cbn in Hbyte. qc_order. }
    now apply int_of_float_floor.
  - rewrite <- (Qfloor_Qc_of_Z omin) at 1.
    rewrite <- (Qfloor_Qc_of_Z omax) at 1.
    split; now apply Qfloor_resp_le.
Qed.

End CastFacts.

Section RescaleFacts.
Variable unportable_cast : pynum -> Z.
Variables imin imax : Qc.
Variables omin omax : Z.
Hypothesis Hin : (imin < imax)%Qc.
Hypothesis Hout : (0 <= omin <= omax)%Z /\ (omax <= 255)%Z.

(** The statements of [rescale_intensity] on one pixel. *)
Local Abbreviation stretched px :=
  (float_to_uint8 unportable_cast
     (num_add
        (num_mul
           (num_div (num_sub (np_clip px (Num imin) (Num imax)) (Num imin))
              (num_sub (Num imax) (Num imin)))
           (Int (omax - omin)))
        (Int omin))).

(** The value of a clipped pixel before the cast. *)
Local Abbreviation scaled c :=
  ((c + - imin) / (imax + - imin) * Qc_of_Z (omax - omin)
   + Qc_of_Z omin)%Qc.

Lemma scaled_bounds (c : Qc) :
  (imin <= c)%Qc -> (c <= imax)%Qc ->
  (Qc_of_Z omin <= scaled c)%Qc /\ (scaled c <= Qc_of_Z omax)%Qc.
Proof.
  intros Hlow Hhigh.
  destruct (stretch_bounds (c + - imin) (imax + - imin)
              (Qc_of_Z (omax - omin)))
    as [Hzero Hwidth].
  - exact (proj1 (Qclt_minus_iff _ _) Hin).
  - exact (proj1 (Qcle_minus_iff _ _) Hlow).
  - apply Qcplus_le_compat; [exact Hhigh|apply Qcle_refl].
  - apply (Qc_of_Z_le 0). lia.
  - split.
    + replace (Qc_of_Z omin) with (Q2Qc 0 + Qc_of_Z omin)%Qc at 1 by ring.
      apply Qcplus_le_compat; [exact Hzero|apply Qcle_refl].
    + replace omax with (omax - omin + omin)%Z at 2 by lia.
      rewrite Qc_of_Z_add.
      apply Qcplus_le_compat; [exact Hwidth|apply Qcle_refl].
Qed.


Lemma stretched_value (px : pynum) (c : Qc) :
  np_clip px (Num imin) (Num imax) = Num c ->
  (imin <= c)%Qc -> (c <= imax)%Qc ->
  stretched px = Qfloor (scaled c) /\ (omin <= stretched px <= omax)%Z.
Proof.
  intros Hclip Hlow Hhigh. rewrite Hclip.
  assert (Hscaled :
            num_add
              (num_mul
                 (num_div (num_sub (Num c) (Num imin))
                    (num_sub (Num imax) (Num imin)))
                 (Int (omax - omin)))
              (Int omin)
            = Num (scaled c)).
  { unfold num_sub, Int. cbn [num_neg num_add]. unfold num_div.
    destruct (Qeq_bool (imax + - imin)%Qc 0) eqn:Hzero; [|reflexivity].
    exfalso. apply Qeq_bool_iff in Hzero.
    pose proof (proj1 (Qclt_minus_iff _ _) Hin) as Hpos.
    unfold Qclt in Hpos. rewrite Hzero in Hpos.
    now apply (Qlt_irrefl 0). }
  rewrite Hscaled.
  destruct (scaled_bounds c Hlow Hhigh) as [Hfrom Hto].
  destruct (cast_in_range unportable_cast omin omax Hout _ Hfrom Hto)
    as [-> Hrange].
  now split.
Qed.

Lemma stretched_endpoints (px : pynum) :
  isnan px = false ->
  (num_ltb (Num imin) px = false -> stretched px = omin)
  /\ (num_ltb px (Num imax) = false -> stretched px = omax).
Proof.
  intros Hpx.
  destruct (clip_value imin imax Hin _ Hpx)
    as (c & Hclip & Hlow & Hhigh & Hmin & Hmax).
  rewrite (proj1 (stretched_value _ c Hclip Hlow Hhigh)).
  assert (Hwidth : (imax + - imin)%Qc <> Q2Qc 0).
  { intros Hzero. pose proof (proj1 (Qclt_minus_iff _ _) Hin) as Hpos.
    rewrite Hzero in Hpos. now apply (Qclt_not_eq _ _ Hpos). }
  split.
  - intros Hbelow. rewrite (Hmin Hbelow).
    replace (scaled imin) with (Qc_of_Z omin) by (field; exact Hwidth).
    apply Qfloor_Qc_of_Z.
  - intros Habove. rewrite (Hmax Habove).
    replace (scaled imax) with (Qc_of_Z omax).
    + apply Qfloor_Qc_of_Z.
    + replace omax with (omax - omin + omin)%Z at 1 by lia.
      rewrite Qc_of_Z_add. field. exact Hwidth.
Qed.

End RescaleFacts.


Section DegenerateRange.
Variable unportable_cast : pynum -> Z.


End DegenerateRange.


(** ** The bands of a quicklook *)

Lemma read_band_item
    (calculate_percentiles : option (Z * Z)) (mask mask' : ndarray bool)
    (range range' : pynum * pynum) (array : ndarray pynum)
    (nodata : option pynum) :
  read_band calculate_percentiles mask range array nodata = Ok (mask', range') ->
  arr_shape array = arr_shape mask ->
  arr_shape mask' = arr_shape mask
  /\ forall i j,
       item mask' i j = item mask i j && differs nodata (item array i j).
Proof.
  unfold read_band.
  destruct (inplace andb mask (arr_map (differs nodata) array)) as [mask1|]
    eqn:Hand; [|discriminate].
  destruct (inplace_andb_item _ _ _ Hand) as (Hshape & _ & Hitem).
  intros Hread Harray.
  assert (Hsame : mask' = mask1).
  { destruct calculate_percentiles as [[q_low q_high]|];
      [|now injection Hread].
    destruct (shape_eqb _ _); [|discriminate].
    destruct (any_nonzero _); now injection Hread. }
  subst mask'. split; [exact Hshape|]. intros i j. now apply Hitem.
Qed.

Lemma read_bands_shape
    (calculate_percentiles : option (Z * Z)) (images : LazyImages)
    (mask0 mask : ndarray bool) (range0 range : pynum * pynum) :
  read_bands calculate_percentiles mask0 range0 images = Ok (mask, range) ->
  arr_shape mask = arr_shape mask0.
Proof.
  revert mask0 range0.
  induction images as [|[array nodata] images IH]; intros mask0 range0;
    cbn [read_bands].
  - now intros [= <- _].
  - destruct (read_band calculate_percentiles mask0 range0 array nodata)
      as [[mask1 range1]|err] eqn:Hband; [|discriminate].
    intros Hrest. rewrite (IH _ _ Hrest).
    now apply (read_band_mask _ _ _ _ _ _ _ Hband).
Qed.

Lemma read_bands_item
    (calculate_percentiles : option (Z * Z)) (images : LazyImages)
    (mask0 mask : ndarray bool) (range0 range : pynum * pynum) :
  read_bands calculate_percentiles mask0 range0 images = Ok (mask, range) ->
  (forall image, In image images -> arr_shape (fst image) = arr_shape mask0) ->
  arr_shape mask = arr_shape mask0
  /\ forall i j,
       item mask i j
       = item mask0 i j
         && forallb (fun image => differs (snd image) (item (fst image) i j))
              images.
Proof.
  revert mask0 range0.
  induction images as [|[array nodata] images IH]; intros mask0 range0.
  - intros [= <- <-] _. split; [reflexivity|].
    intros i j. cbn. now rewrite andb_true_r.
  - cbn [read_bands].
    destruct (read_band calculate_percentiles mask0 range0 array nodata)
      as [[mask1 range1]|err] eqn:Hband; [|discriminate].
    intros Hrest Hshapes.
    destruct (read_band_item _ _ _ _ _ _ _ Hband
                (Hshapes (array, nodata) (or_introl eq_refl)))
      as [Hshape1 Hitem1].
    destruct (IH _ _ Hrest) as [Hshape Hitem].
    { intros image Hin. rewrite Hshape1. apply Hshapes. now right. }
    split; [congruence|]. intros i j.
    rewrite Hitem, Hitem1. cbn [forallb fst snd]. now rewrite andb_assoc.
Qed.


Section QuicklookFacts.
Variable unportable_cast : pynum -> Z.

Lemma rescale_intensity_inv
    (image : ndarray pynum) (in_range : pynum * pynum) (omin omax : Z)
    (image_nodata : option pynum) (image_null_mask : ndarray bool)
    (out_nodata : Z) (out : ndarray Z) :
  rescale_intensity unportable_cast image in_range (Some (omin, omax))
    image_nodata (Some image_null_mask) out_nodata
  = inr out ->
  arr_shape image_null_mask = arr_shape image
  /\ arr_shape out = arr_shape image
  /\ (forall i j, item image_null_mask i j = true ->
                  item out i j = int_to_uint8 unportable_cast out_nodata)
  /\ (forall i j,
        item image_null_mask i j = false ->
        item out i j
        = float_to_uint8 unportable_cast
            (num_add
               (num_mul
                  (num_div
                     (num_sub
                        (np_clip (item image i j) (fst in_range)
                           (snd in_range))
                        (fst in_range))
                     (num_sub (snd in_range) (fst in_range)))
                  (Int (omax - omin)))
               (Int omin))).
Proof.
  unfold rescale_intensity. destruct in_range as [imin imax].
  cbn [arr_map arr_shape fst snd].
  destruct (shape_eqb (arr_shape image_null_mask) (arr_shape image))
    eqn:Hshape; [|discriminate].
  intros [= <-]. cbn [arr_shape item arr_map]. split.
  - unfold shape_eqb in Hshape. apply andb_prop in Hshape as [Hrows Hcols].
    apply Nat.eqb_eq in Hrows, Hcols.
    destruct (arr_shape image_null_mask), (arr_shape image).
    cbn in Hrows, Hcols. congruence.
  - split; [reflexivity|]. split; intros i j ->; reflexivity.
Qed.

Lemma rescale_bands_arrays
    (rgb : list (ndarray pynum)) (nodata : option pynum)
    (valid_data_mask : ndarray bool) (in_range : pynum * pynum)
    (sources : list (ndarray Z)) :
  rescale_bands unportable_cast (_iter_arrays rgb nodata) valid_data_mask
    in_range
  = inr sources ->
  List.length sources = List.length rgb
  /\ forall band source,
       In (band, source) (combine rgb sources) ->
       rescale_intensity unportable_cast band in_range (Some (1, 255)%Z) None
         (Some (arr_map negb valid_data_mask)) 0
       = inr source.
Proof.
  revert sources. induction rgb as [|image rgb IH]; intros sources.
  - intros [= <-]. split; [reflexivity|]. intros band source [].
  - change (_iter_arrays (image :: rgb) nodata)
      with ((image, nodata) :: _iter_arrays rgb nodata).
    cbn [rescale_bands].
    destruct (rescale_intensity unportable_cast image in_range
                (Some (1, 255)%Z) None (Some (arr_map negb valid_data_mask)) 0)
      as [err|source] eqn:Hband; [discriminate|].
    destruct (rescale_bands unportable_cast (_iter_arrays rgb nodata)
                valid_data_mask in_range)
      as [err|rest] eqn:Hrest; [discriminate|].
    intros [= <-]. destruct (IH rest eq_refl) as [Hlength Hbands].
    split; [cbn; now rewrite Hlength|].
    intros band source' [[= <- <-]|Hin]; [exact Hband|now apply Hbands].
Qed.

End QuicklookFacts.


(** ** Geo documents *)

Lemma add_measurement_docs_fresh
    (grid_name : string) (measurements : _Measurements)
    (docs : list (string * MeasurementDoc)) :
  NoDup (map fst docs ++ map (fun nl => replace_colon (fst nl)) measurements) ->
  add_measurement_docs grid_name measurements docs
  = docs
    ++ map (fun nl =>
              (replace_colon (fst nl),
               {| doc_path := path (snd nl);
                  doc_layer := layer (snd nl);
                  doc_grid :=
                    if String.eqb grid_name "default" then None
                    else Some grid_name |}))
         measurements.
Proof.
  unfold add_measurement_docs. revert docs.
  induction measurements as [|[name location] measurements IH];
    intros docs Hnodup; cbn [fold_left map fst snd].
  - now rewrite app_nil_r.
  - cbn [map fst] in Hnodup.
    rewrite dict_set_fresh.
    + rewrite IH.
      * now rewrite <- app_assoc.
      * now rewrite map_app, <- app_assoc.
    + apply dict_get_None_keys. intros Hin.
      apply (NoDup_remove_2 _ _ _ Hnodup). apply in_or_app. now left.
Qed.

Lemma flat_map_map {A B C : Type} (f : B -> list C) (g : A -> B) (l : list A) :
  flat_map f (map g l) = flat_map (fun x => f (g x)) l.
Proof. induction l as [|x l IH]; cbn; [trivial|now rewrite IH]. Qed.

Section GeoDocsFacts.
Context `{OdcGeo}.
Variable pyproj_eq : CRS -> CRS -> bool.

Lemma geo_docs_loop_docs (named : NamedGrids) :
  forall (crs_so_far crs' : option CRS)
         (grid_docs grid_docs' : list (string * GridDoc))
         (measurement_docs measurement_docs' : list (string * MeasurementDoc)),
    NoDup (map fst grid_docs ++ map fst named) ->
    NoDup (map fst measurement_docs
           ++ map replace_colon
                (flat_map (fun n => map fst (snd (snd n))) named)) ->
    geo_docs_loop pyproj_eq named crs_so_far grid_docs measurement_docs
    = inr (Docs crs' grid_docs' measurement_docs') ->
    grid_docs'
    = grid_docs
      ++ map (fun n =>
                (fst n,
                 mk_GridDoc (shape (fst (snd n))) (affine (fst (snd n)))))
           named
    /\ measurement_docs'
       = measurement_docs
         ++ flat_map
              (fun n =>
                 map (fun nl =>
                        (replace_colon (fst nl),
                         {| doc_path := path (snd nl);
                            doc_layer := layer (snd nl);
                            doc_grid :=
                              if String.eqb (fst n) "default" then None
                              else Some (fst n) |}))
                   (snd (snd n)))
              named.
Proof.
  induction named as [|[grid_name [grid measurements]] named IH];
    intros crs_so_far crs' grid_docs grid_docs' measurement_docs
      measurement_docs' Hgrids Hnames; cbn [geo_docs_loop].
  - intros [= _ <- <-]. cbn. now rewrite !app_nil_r.
  - destruct (check_crs pyproj_eq crs_so_far grid) as [err|crs1];
      [discriminate|].
    cbn [map fst snd flat_map] in Hgrids, Hnames |- *.
    rewrite map_app, app_assoc in Hnames.
    assert (Hhere : NoDup (map fst measurement_docs
                           ++ map (fun nl => replace_colon (fst nl))
                                measurements)).
    { apply NoDup_app_remove_r in Hnames. now rewrite map_map in Hnames. }
    rewrite (add_measurement_docs_fresh _ _ _ Hhere).
    rewrite dict_set_fresh.
    + intros Hloop. apply IH in Hloop.
      * destruct Hloop as [-> ->]. rewrite <- !app_assoc.
        split; reflexivity.
      * rewrite map_app, <- app_assoc. exact Hgrids.
      * rewrite map_app, map_map. cbn [fst].
        rewrite (map_map fst replace_colon) in Hnames. exact Hnames.
    + apply dict_get_None_keys. intros Hin.
      apply (NoDup_remove_2 _ _ _ Hgrids). apply in_or_app. now left.
Qed.

(** X19. When no two measurement names coincide once their colons are
    replaced by underscores, the documents [as_geo_docs] returns describe
    the named grids one for one and in their order: a grid document with
    the shape and transform of every named grid, and a measurement document
    for every measurement, under its name with the colons replaced, with its
    path and layer, and with the name of its grid unless that is the default
    grid. *)
Theorem geo_docs_describe_the_registry
    (self : MeasurementBundler) (crs' : option CRS)
    (grid_docs : list (string * GridDoc))
    (measurement_docs : list (string * MeasurementDoc)) :
  NoDup (map replace_colon (iter_names self)) ->
  as_geo_docs pyproj_eq self = inr (Docs crs' grid_docs measurement_docs) ->
  exists named,
    _as_named_grids self = Ok named
    /\ grid_docs
       = map (fun n =>
                (fst n,
                 mk_GridDoc (shape (fst (snd n))) (affine (fst (snd n)))))
           named
    /\ measurement_docs
       = flat_map
           (fun n =>
              map (fun nl =>
                     (replace_colon (fst nl),
                      {| doc_path := path (snd nl);
                         doc_layer := layer (snd nl);
                         doc_grid :=
                           if String.eqb (fst n) "default" then None
                           else Some (fst n) |}))
                (snd (snd n)))
           named
    /\ List.length measurement_docs = List.length (iter_names self).
Proof.
  intros Hnames. unfold as_geo_docs.
  destruct (_measurements_per_grid self) as [|first others] eqn:Hregistry;
    [discriminate|].
  destruct (_as_named_grids self) as [named|err] eqn:Hnamed; [|discriminate].
  intros Hloop. exists named. split; [reflexivity|].
  destruct (as_named_grids_cases self named Hnamed) as [Hnodup Hgrids].
  assert (Hperm : Permutation
                    (flat_map (fun n => map fst (snd (snd n))) named)
                    (iter_names self)).
  { replace (flat_map (fun n => map fst (snd (snd n))) named)
      with (flat_map (fun gm : GeoBox * _Measurements => map fst (snd gm))
              (map snd named))
      by apply (flat_map_map
                  (fun gm : GeoBox * _Measurements => map fst (snd gm)) snd).
    rewrite Hgrids. apply Permutation_flat_map, sorted_desc_perm. }
  apply geo_docs_loop_docs in Hloop.
  - destruct Hloop as [-> ->]. cbn [app]. split; [reflexivity|].
    split; [reflexivity|].
    rewrite <- (Permutation_length Hperm), !flat_map_concat_map.
    rewrite !length_concat, !map_map. f_equal. apply map_ext.
    intros n. now rewrite !length_map.
  - exact Hnodup.
  - cbn [map app]. eapply Permutation_NoDup; [|exact Hnames].
    apply Permutation_map. now symmetry.
Qed.
End GeoDocsFacts.

Section CrsCheckFacts.
Context `{OdcGeo}.
Variable pyproj_eq : CRS -> CRS -> bool.


End CrsCheckFacts.

Lemma geo_docs_describe_the_registry_witness :
  exists crs' grid_docs measurement_docs,
    @as_geo_docs odc_geo (fun _ _ => false) nbar_nbart
    = inr (Docs crs' grid_docs measurement_docs)
    /\ map fst grid_docs = ["default"; "nbart_blue"]
    /\ map fst measurement_docs = ["nbar_blue"; "nbar_red"; "nbart_blue"]
    /\ List.length measurement_docs = 3%nat.
Proof.
  assert (Hrun : exists crs' grid_docs measurement_docs,
             @as_geo_docs odc_geo (fun _ _ => false) nbar_nbart
             = inr (Docs crs' grid_docs measurement_docs)
             /\ map fst grid_docs = ["default"; "nbart_blue"]
             /\ map fst measurement_docs
                = ["nbar_blue"; "nbar_red"; "nbart_blue"]).
  { eexists _, _, _. split; [reflexivity|]. split; reflexivity. }
  destruct Hrun as (crs' & grid_docs & measurement_docs & Hrun & Hgrids
                    & Hnames).
  exists crs', grid_docs, measurement_docs.
  split; [exact Hrun|]. split; [exact Hgrids|]. split; [exact Hnames|].
  assert (Hdistinct : NoDup (map replace_colon (iter_names nbar_nbart))).
  { assert (Hfixed : nodup string_dec
                       (map replace_colon (iter_names nbar_nbart))
                     = map replace_colon (iter_names nbar_nbart))
      by (vm_compute; reflexivity).
    rewrite <- Hfixed. apply NoDup_nodup. }
  destruct (@geo_docs_describe_the_registry odc_geo (fun _ _ => false)
              nbar_nbart crs' grid_docs measurement_docs Hdistinct Hrun)
    as (named & _ & _ & _ & Hlength).
  exact Hlength.
Defined.


(** Without the hypothesis of X19 a document is lost: two names that differ
    only by a colon share one measurement document, with the path of the
    band recorded last. *)
Example colon_names_share_a_document :
  iter_names colon_pair = ["oa:fmask"; "oa_fmask"]
  /\ exists crs' grid_docs,
       @as_geo_docs odc_geo (fun _ _ => false) colon_pair
       = inr (Docs crs' grid_docs
                [("oa_fmask",
                  {| doc_path := "second.tif"; doc_layer := None;
                     doc_grid := None |})]).
Proof.
  split; [vm_compute; reflexivity|]. eexists _, _. vm_compute. reflexivity.
Qed.

Lemma read_band_returns
    (calculate_percentiles : option (Z * Z)) (mask : ndarray bool)
    (range : pynum * pynum) (array : ndarray pynum) (nodata : option pynum) :
  arr_shape array = arr_shape mask ->
  exists mask' range',
    read_band calculate_percentiles mask range array nodata
    = Ok (mask', range').
Proof.
  intros Hshape. unfold read_band.
  destruct (inplace_same_shape andb mask (arr_map (differs nodata) array))
    as (mask' & -> & Hshape' & _); [exact Hshape|].
  destruct calculate_percentiles as [[q_low q_high]|]; [|now eexists _, _].
  rewrite Hshape', <- Hshape, shape_eqb_refl.
  destruct (any_nonzero _); now eexists _, _.
Qed.

Lemma read_bands_returns
    (calculate_percentiles : option (Z * Z)) (images : LazyImages) :
  forall (mask0 : ndarray bool) (range0 : pynum * pynum),
    (forall image, In image images ->
                   arr_shape (fst image) = arr_shape mask0) ->
    exists mask range,
      read_bands calculate_percentiles mask0 range0 images = Ok (mask, range).
Proof.
  induction images as [|[array nodata] images IH]; intros mask0 range0 Hshapes;
    cbn [read_bands].
  - now eexists _, _.
  - destruct (read_band_returns calculate_percentiles mask0 range0 array
                nodata (Hshapes _ (or_introl eq_refl)))
      as (mask1 & range1 & Hband).
    rewrite Hband. apply IH. intros image Hin.
    rewrite (proj1 (read_band_mask _ _ _ _ _ _ _ Hband)).
    apply Hshapes. now right.
Qed.

Section QuicklookReturns.
Variable unportable_cast : pynum -> Z.

Lemma rescale_bands_returns
    (rgb : list (ndarray pynum)) (nodata : option pynum)
    (valid_data_mask : ndarray bool) (in_range : pynum * pynum) :
  (forall band, In band rgb -> arr_shape band = arr_shape valid_data_mask) ->
  exists sources,
    rescale_bands unportable_cast (_iter_arrays rgb nodata) valid_data_mask
      in_range
    = inr sources.
Proof.
  induction rgb as [|image rgb IH]; intros Hshapes.
  - now exists [].
  - change (_iter_arrays (image :: rgb) nodata)
      with ((image, nodata) :: _iter_arrays rgb nodata).
    cbn [rescale_bands]. unfold rescale_intensity at 1.
    destruct in_range as [imin imax]. cbn [arr_map arr_shape].
    rewrite (Hshapes image (or_introl eq_refl)), shape_eqb_refl.
    destruct IH as [sources ->]; [intros band Hin; apply Hshapes; now right|].
    now eexists.
Qed.

Lemma write_to_numpy_array_returns
    (rgb : list (ndarray pynum)) (static_range : option (pynum * pynum))
    (percentile_range : option (Z * Z)) (input_geobox : GeoBox)
    (nodata : option pynum) :
  (forall band, In band rgb -> arr_shape band = shape input_geobox) ->
  exists sources,
    _write_to_numpy_array unportable_cast rgb static_range percentile_range
      (Some input_geobox) nodata
    = inr sources.
Proof.
  intros Hshapes. unfold _write_to_numpy_array.
  destruct (read_bands_returns percentile_range (_iter_arrays rgb nodata)
              (all_true (shape input_geobox))
              (Int (- sys_maxsize - 1), Int sys_maxsize))
    as (valid_data_mask & calculated_range & Hread).
  { intros [array nd] Hin.
    apply in_map_iff in Hin as (band & [= <- <-] & Hin).
    now apply Hshapes. }
  unfold read_valid_mask_and_value_range. rewrite Hread.
  apply rescale_bands_returns. intros band Hin.
  rewrite (read_bands_shape _ _ _ _ _ _ Hread). now apply Hshapes.
Qed.

End QuicklookReturns.

(** ** A single band as a thumbnail *)

Lemma Qc_of_Z_lt (a b : Z) : (a < b)%Z -> (Qc_of_Z a < Qc_of_Z b)%Qc.
Proof.
  intros Hlt. unfold Qc_of_Z, Qclt. cbn [this Q2Qc].
  rewrite !Qred_correct. now rewrite <- Zlt_Qlt.
Qed.

Lemma Int_eqb (a b : Z) : num_eqb (Int a) (Int b) = (a =? b)%Z.
Proof.
  unfold Int, Qc_of_Z. cbn [num_eqb this Q2Qc].
  destruct (a =? b)%Z eqn:Hab.
  - apply Z.eqb_eq in Hab as ->. apply Qeq_bool_iff. reflexivity.
  - apply Z.eqb_neq in Hab. apply Bool.not_true_iff_false. intros Heq.
    apply Qeq_bool_iff in Heq. rewrite !Qred_correct in Heq.
    apply Hab. now apply inject_Z_injective.
Qed.

Lemma In_combine_right {A B : Type} (l : list A) (l' : list B) (y : B) :
  List.length l' = List.length l -> In y l' ->
  exists x, In (x, y) (combine l l').
Proof.
  revert l'. induction l as [|a l IH]; intros [|b l'] Hlength; cbn;
    try discriminate; try tauto.
  intros [->|Hin]; [exists a; now left|].
  injection Hlength as Hlength.
  destruct (IH l' Hlength Hin) as [x Hx]. exists x. now right.
Qed.

Section SingleBand.
Variable unportable_cast : pynum -> Z.

(** X22. A thumbnail of one band with a positive [bit] is white on black:
    [create_thumbnail_singleband_from_numpy] passes the filtered band three
    times with the stretch [(0, bit)], and for data of the shape of the
    geobox [_write_to_numpy_array], given those with the default percentiles
    and nodata -999, hands [reproject] three sources in which a pixel is 255
    where the data equal [bit] and 1 everywhere else, never the nodata 0. *)
Theorem bit_thumbnail_is_white_on_black
    (input_data : ndarray Z) (bit : Z) (input_geobox : GeoBox) :
  (0 < bit)%Z ->
  arr_shape input_data = shape input_geobox ->
  exists band sources,
    create_thumbnail_singleband_from_numpy input_data (Some bit) None
    = inr (Thrice (OneArray band), (0, bit)%Z)
    /\ _write_to_numpy_array unportable_cast
         [arr_map Int band; arr_map Int band; arr_map Int band]
         (Some (Int 0, Int bit)) (Some (2, 98)%Z) (Some input_geobox)
         (Some (Int (-999)))
       = inr sources
    /\ List.length sources = 3%nat
    /\ forall source, In source sources ->
         forall i j,
           item source i j
           = if (item input_data i j =? bit)%Z then 255%Z else 1%Z.
Proof.
  intros Hbit Hshape.
  destruct (filter_bit_mode input_data bit)
    as (band & Hfilter & Hband & Hitem).
  exists band.
  set (rgb := [arr_map Int band; arr_map Int band; arr_map Int band]).
  assert (Hshapes : forall other, In other rgb ->
                                  arr_shape other = shape input_geobox).
  { intros other [<-|[<-|[<-|[]]]]; cbn [arr_map arr_shape]; congruence. }
  destruct (write_to_numpy_array_returns unportable_cast rgb
              (Some (Int 0, Int bit)) (Some (2, 98)%Z) input_geobox
              (Some (Int (-999))) Hshapes)
    as [sources Hrun].
  exists sources. split.
  { unfold create_thumbnail_singleband_from_numpy. rewrite Hfilter.
    destruct (bit =? 0)%Z eqn:Hzero; [apply Z.eqb_eq in Hzero; lia|].
    reflexivity. }
  split; [exact Hrun|].
  unfold _write_to_numpy_array in Hrun.
  destruct (read_valid_mask_and_value_range _ _ _)
    as [[valid_data_mask calculated_range]|err] eqn:Hread; [|discriminate].
  destruct (rescale_bands_arrays _ _ _ _ _ _ Hrun) as [Hlength Hrescaled].
  split; [exact Hlength|].
  assert (Hall : forall image,
             In image (_iter_arrays rgb (Some (Int (-999)))) ->
             arr_shape (fst image)
             = arr_shape (all_true (shape input_geobox))).
  { intros [array nd] Hin.
    apply in_map_iff in Hin as (other & [= <- <-] & Hin).
    now apply Hshapes. }
  destruct (read_bands_item _ _ _ _ _ _ Hread Hall) as [_ Hmask].
  assert (Hvalid : forall i j, item valid_data_mask i j = true).
  { intros i j. rewrite Hmask. cbn [all_true item andb].
    apply forallb_forall. intros [array nd] Hin.
    apply in_map_iff in Hin as (other & [= <- <-] & Hin).
    assert (Hother : other = arr_map Int band)
      by (destruct Hin as [<-|[<-|[<-|[]]]]; reflexivity).
    subst other. cbn [fst snd differs arr_map item]. unfold num_neqb.
    rewrite Int_eqb, Hitem.
    destruct (item input_data i j =? bit)%Z;
      apply Bool.negb_true_iff, Z.eqb_neq; lia. }
  intros source Hsource i j.
  destruct (In_combine_right rgb sources source Hlength Hsource)
    as [other Hpair].
  assert (Hother : other = arr_map Int band).
  { apply in_combine_l in Hpair.
    destruct Hpair as [<-|[<-|[<-|[]]]]; reflexivity. }
  subst other.
  destruct (rescale_intensity_inv _ _ _ _ _ _ _ _ _ (Hrescaled _ _ Hpair))
    as (_ & _ & _ & Hstretched).
  cbn [arr_map item range_or fst snd] in Hstretched.
  rewrite Hstretched by (now rewrite Hvalid).
  assert (Hin : (Qc_of_Z 0 < Qc_of_Z bit)%Qc) by now apply Qc_of_Z_lt.
  assert (Hout : (0 <= 1 <= 255)%Z /\ (255 <= 255)%Z) by lia.
  destruct (stretched_endpoints unportable_cast (Qc_of_Z 0) (Qc_of_Z bit)
              1 255 Hin Hout (Int (item band i j)) eq_refl)
    as [Hlow Hhigh].
  rewrite Hitem in *.
  destruct (item input_data i j =? bit)%Z.
  - apply Hhigh. cbn [num_ltb Int]. apply Bool.negb_false_iff.
    apply Qle_bool_iff, Qle_refl.
  - apply Hlow. cbn [num_ltb Int]. apply Bool.negb_false_iff.
    apply Qle_bool_iff, Qle_refl.
Qed.
End SingleBand.

Lemma bit_thumbnail_is_white_on_black_witness :
  exists band sources,
    create_thumbnail_singleband_from_numpy water_row (Some 128%Z) None
    = inr (Thrice (OneArray band), (0, 128)%Z)
    /\ _write_to_numpy_array cast_to_zero
         [arr_map Int band; arr_map Int band; arr_map Int band]
         (Some (Int 0, Int 128)) (Some (2, 98)%Z) (Some pair_grid)
         (Some (Int (-999)))
       = inr sources
    /\ List.length sources = 3%nat
    /\ forall source, In source sources ->
         item source 0 0 = 255%Z /\ item source 0 1 = 1%Z.
Proof.
  assert (Hbit : (0 < 128)%Z) by lia.
  destruct (bit_thumbnail_is_white_on_black cast_to_zero water_row 128
              pair_grid Hbit eq_refl)
    as (band & sources & Hfilter & Hrun & Hlength & Hpixels).
  exists band, sources. split; [exact Hfilter|]. split; [exact Hrun|].
  split; [exact Hlength|]. intros source Hsource.
  split; [exact (Hpixels source Hsource 0 0)%nat|].
  exact (Hpixels source Hsource 0 1)%nat.
Defined.

(** ** The paths of the registry *)

Lemma In_dict_get {K V : Type} (eq_dec : forall x y : K, {x = y} + {x <> y})
    (k : K) (v : V) (d : list (K * V)) :
  NoDup (map fst d) -> In (k, v) d -> dict_get eq_dec k d = Some v.
Proof.
  induction d as [|[k' v'] d IH]; cbn [map fst dict_get]; [intros _ []|].
  intros Hnodup [[= -> ->]|Hin].
  - destruct (eq_dec k k); [reflexivity|contradiction].
  - inversion Hnodup as [|? ? Hfresh Hrest]; subst.
    destruct (eq_dec k k') as [->|_]; [|now apply IH].
    exfalso. apply Hfresh. now apply (in_map fst _ (k', v)).
Qed.

Lemma NoDup_flat_map_part {A B : Type} (f : A -> list B) (l : list A) (x : A) :
  NoDup (flat_map f l) -> In x l -> NoDup (f x).
Proof.
  induction l as [|a l IH]; cbn [flat_map]; [intros _ []|].
  intros Hnodup [->|Hin].
  - now apply NoDup_app_remove_r in Hnodup.
  - apply IH; [|exact Hin]. now apply NoDup_app_remove_l in Hnodup.
Qed.

(** X23. [iter_paths] walks the registry as [iter_names] does, so its names
    in order are those of [iter_names]; and on a registry that is a
    dictionary of dictionaries (distinct grid keys, distinct names) it yields
    a grid, a name and a path exactly when the registry holds the name under
    the grid at a location with that path. *)
Theorem iter_paths_lists_the_registry (self : MeasurementBundler) :
  NoDup (map fst (_measurements_per_grid self)) ->
  NoDup (iter_names self) ->
  map (fun entry => snd (fst entry)) (iter_paths self) = iter_names self
  /\ forall grid name file,
       In (grid, name, file) (iter_paths self)
       <-> exists location,
             holds self grid name location /\ path location = file.
Proof.
  intros Hgrids Hnames. unfold iter_paths, iter_names, holds in *. split.
  - clear. induction (_measurements_per_grid self) as [|[grid ms] rest IH];
      cbn [flat_map]; [reflexivity|].
    rewrite map_app, IH, map_map. reflexivity.
  - intros grid name file. rewrite in_flat_map. split.
    + intros ([grid' ms] & Hgrid & Hentry).
      apply in_map_iff in Hentry as ([name' location] & [= <- <- <-] & Hname).
      cbn [fst snd] in *. exists location. split; [|reflexivity].
      exists ms. split; [now apply In_dict_get|].
      apply In_dict_get; [|exact Hname].
      exact (NoDup_flat_map_part (fun gm => map fst (snd gm)) _ _ Hnames
               Hgrid).
    + intros (location & (ms & Hgrid & Hname) & <-).
      exists (grid, ms). split; [now apply (dict_get_In GeoBox_eq_dec)|].
      apply in_map_iff. exists (name, location).
      split; [reflexivity|now apply (dict_get_In string_dec)].
Qed.

Lemma iter_paths_lists_the_registry_witness :
  map (fun entry => snd (fst entry)) (iter_paths nbar_nbart)
  = ["nbar_blue"; "nbar_red"; "nbart_blue"]
  /\ In (GridB_key, "nbart_blue", "nbart_blue.tif") (iter_paths nbar_nbart).
Proof.
  assert (Hgrids : NoDup (map fst (_measurements_per_grid nbar_nbart))).
  { assert (Hfixed : nodup GeoBox_eq_dec
                       (map fst (_measurements_per_grid nbar_nbart))
                     = map fst (_measurements_per_grid nbar_nbart))
      by (vm_compute; reflexivity).
    rewrite <- Hfixed. apply NoDup_nodup. }
  assert (Hnames : NoDup (iter_names nbar_nbart)).
  { assert (Hfixed : nodup string_dec (iter_names nbar_nbart)
                     = iter_names nbar_nbart)
      by (vm_compute; reflexivity).
    rewrite <- Hfixed. apply NoDup_nodup. }
  destruct (iter_paths_lists_the_registry nbar_nbart Hgrids Hnames)
    as [Horder Hheld].
  split; [exact Horder|]. apply Hheld.
  exists (mk_location "nbart_blue.tif" None). split; [|reflexivity].
  eexists. split; vm_compute; reflexivity.
Defined.

